(** * Anniversary resolution pipeline of the movie-nerd-tools content script

    A shallow embedding of [src/content.tsx]: the two anniversary
    calculators, the per-film resolver with its cache, the batch loop of the
    list page's click handler and the final sort; the texts shown with an
    anniversary and written into the calendar export; the debounced reset
    and the initialisation of the script on a page; followed by the
    properties proved of them.

    Platform behaviour the script relies on is modelled as follows.
    - A valid [Date] is its time value, a [Z] number of milliseconds since the
      epoch; the calendar functions are those of ECMA-262 (Day, DayFromYear,
      YearFromTime, MonthFromTime, DateFromTime, MakeDay, MakeDate).  The
      local time zone gives an offset for every instant and for every local
      time, as LocalTZA(t, isUTC) does, so that daylight saving time and
      other changes of offset are covered; the range limit of time values
      (TimeClip) is not modelled.
    - An [async] function is a tree of suspension points ([Task]).  The
      functions of a batch run interleaved: an explicit list of settlements,
      chosen by the environment, says which pending operation settles next,
      whether it rejects, and how much time has passed.  When the list is
      used up, what is still pending resolves at once, so that every run of a
      batch ends.
    - [chrome.storage.local] holds one document under ['movie-cache']; a
      [get] hands out a copy of it, a [set] replaces it.
    - What can be observed of a run is its trace: requests, logged errors,
      progress reports and pauses, in the order they happen.
    - A string is the list of its code units, taken below 256;
      [toISOString] and [new Date] on its output follow ECMA-262, 21.4.1.32
      and 21.4.4.36.
    - Of the document the script sees what its selectors find; the page may
      change that at any time and may remove what the script has added.
      Timers never fire before they are due; when they fire is for the
      environment to say. *)

From Stdlib Require Import ZArith Lia Ascii.
From stdpp Require Import gmap strings list fin_maps sorting.

Local Open Scope Z_scope.

(** ** Calendar arithmetic of [Date] (ECMA-262, section 21.4.1) *)

Module JSDate.

Definition msPerDay : Z := 86400000.

Definition Day (t : Z) : Z := t / msPerDay.
Definition TimeWithinDay (t : Z) : Z := t mod msPerDay.

Definition isLeapYear (y : Z) : bool :=
  if negb (y mod 4 =? 0) then false
  else if negb (y mod 100 =? 0) then true
  else y mod 400 =? 0.

Definition DaysInYear (y : Z) : Z := if isLeapYear y then 366 else 365.

Definition DayFromYear (y : Z) : Z :=
  365 * (y - 1970) + (y - 1969) / 4 - (y - 1901) / 100 + (y - 1601) / 400.

(** The largest [y] with [DayFromYear y <= Day t]: a first guess from the
    mean length of a year, off by at most one, then corrected. *)
Definition YearFromTime (t : Z) : Z :=
  let d := Day t in
  let y0 := 1970 + (400 * d) / 146097 in
  if DayFromYear (y0 + 1) <=? d then y0 + 1
  else if DayFromYear y0 <=? d then y0
  else y0 - 1.

Definition InLeapYear (t : Z) : Z :=
  if isLeapYear (YearFromTime t) then 1 else 0.

Definition DayWithinYear (t : Z) : Z := Day t - DayFromYear (YearFromTime t).

(** Day number, within a year, of the first day of month [m] (0 = January). *)
Definition monthStart (leap : Z) (m : Z) : Z :=
  match m with
  | 0 => 0
  | 1 => 31
  | 2 => 59 + leap
  | 3 => 90 + leap
  | 4 => 120 + leap
  | 5 => 151 + leap
  | 6 => 181 + leap
  | 7 => 212 + leap
  | 8 => 243 + leap
  | 9 => 273 + leap
  | 10 => 304 + leap
  | _ => 334 + leap
  end.

Definition MonthFromTime (t : Z) : Z :=
  let d := DayWithinYear t in
  let leap := InLeapYear t in
  if d <? 31 then 0
  else if d <? 59 + leap then 1
  else if d <? 90 + leap then 2
  else if d <? 120 + leap then 3
  else if d <? 151 + leap then 4
  else if d <? 181 + leap then 5
  else if d <? 212 + leap then 6
  else if d <? 243 + leap then 7
  else if d <? 273 + leap then 8
  else if d <? 304 + leap then 9
  else if d <? 334 + leap then 10
  else 11.

Definition DateFromTime (t : Z) : Z :=
  DayWithinYear t - monthStart (InLeapYear t) (MonthFromTime t) + 1.

Definition MakeDay (year month date : Z) : Z :=
  let ym := year + month / 12 in
  let mn := month mod 12 in
  DayFromYear ym + monthStart (if isLeapYear ym then 1 else 0) mn + date - 1.

Definition MakeDate (day time : Z) : Z := day * msPerDay + time.

(** The local time zone.  [offsetAt t] is the offset of local time from
    UTC in force at the instant [t], LocalTZA(t, true); [offsetOfLocal t] is
    the offset by which the local time value [t] is read as an instant,
    LocalTZA(t, false): for a local time that a change of offset repeats or
    skips, the platform takes the offset in force before the change. *)
Record TimeZone := {
  offsetAt : Z -> Z;
  offsetOfLocal : Z -> Z
}.

Definition LocalTime (zone : TimeZone) (t : Z) : Z := t + offsetAt zone t.
Definition UTC (zone : TimeZone) (t : Z) : Z := t - offsetOfLocal zone t.

(** A zone whose offset never changes. *)
Definition fixedOffset (tza : Z) : TimeZone :=
  {| offsetAt := fun _ => tza; offsetOfLocal := fun _ => tza |}.

Definition getFullYear (zone : TimeZone) (t : Z) : Z := YearFromTime (LocalTime zone t).
Definition getMonth (zone : TimeZone) (t : Z) : Z := MonthFromTime (LocalTime zone t).
Definition getDate (zone : TimeZone) (t : Z) : Z := DateFromTime (LocalTime zone t).

(** [d.setFullYear(year)]: the month, the day of the month and the time of
    day of [d] are kept and pushed through MakeDay, which rolls a day that
    does not exist in the target year over into the next month. *)
Definition setFullYear (zone : TimeZone) (t year : Z) : Z :=
  let lt := LocalTime zone t in
  UTC zone (MakeDate (MakeDay year (MonthFromTime lt) (DateFromTime lt))
                     (TimeWithinDay lt)).

(** [new Date(Date.UTC(y, m, d, 0, 0, 0, ms))], used to write dates down. *)
Definition civil (y m d ms : Z) : Z := MakeDate (MakeDay y m d) ms.

End JSDate.

Import JSDate.

(** ** The anniversary calculators *)

(** [calculateNextAnniversary], with the value of [new Date()] passed in. *)
Definition calculateNextAnniversary (zone : TimeZone) (today releaseDate : Z) : Z :=
  let nextAnniversary := releaseDate in
  let nextAnniversary := setFullYear zone nextAnniversary (getFullYear zone today) in
  if nextAnniversary <? today
  then setFullYear zone nextAnniversary (getFullYear zone today + 1)
  else nextAnniversary.

(** [Math.ceil(a / b)] on integers, for a positive [b]. *)
Definition ceilDiv (a b : Z) : Z := - ((- a) / b).

Record Milestone := { date : Z; years : Z }.

(** [calculateNextMilestoneAnniversary], with the value of [new Date()]
    passed in. *)
Definition calculateNextMilestoneAnniversary (zone : TimeZone) (today releaseDate : Z) : Milestone :=
  let yearsSinceRelease := getFullYear zone today - getFullYear zone releaseDate in
  let nextMilestoneYears := ceilDiv yearsSinceRelease 5 * 5 in
  let nextMilestone := releaseDate in
  let nextMilestone :=
    setFullYear zone nextMilestone (getFullYear zone releaseDate + nextMilestoneYears) in
  if nextMilestone <? today
  then
    let nextMilestone :=
      setFullYear zone nextMilestone (getFullYear zone releaseDate + nextMilestoneYears + 5) in
    {| date := nextMilestone; years := nextMilestoneYears + 5 |}
  else {| date := nextMilestone; years := nextMilestoneYears |}.

(** ** Data handled by the list page *)

Record MovieAnniversary := {
  title : string;
  releaseDate : Z;
  nextAnniversary : Z;
  url : string
}.

(** The text [d.toISOString()] of a valid date, kept as the time value it
    spells out; [new Date(text)] reads that time value back. *)
Record IsoString := { instant : Z }.

Definition toISOString (d : Z) : IsoString := {| instant := d |}.
Definition newDate (s : IsoString) : Z := instant s.

(** One value of the [CachedMovieData] object. *)
Module Cached.
Record entry := {
  releaseDate : IsoString;
  lastFetched : Z;
  nextAnniversary : IsoString
}.
End Cached.

(** The object stored under the key ['movie-cache']. *)
Abbreviation CachedMovieData := (gmap string Cached.entry).

(** What the handler reads off one [.poster-container] element: the [href]
    of its first link ([None] when there is no link) and the [alt] of its
    first image ([None] when there is no image). *)
Record MovieElement := {
  anchor : option string;
  imgAlt : option string
}.

Record Response := { body : string }.

(** The platform services whose results the script consumes as they are. *)
Record Platform := {
  (** the local time zone *)
  LocalTZA : TimeZone;
  (** the text of the page served at a URL *)
  responseBody : string -> string;
  (** [querySelector('.release-table .date')] on the parsed page followed by
      [textContent?.trim()]; [None] when no element matches *)
  releaseDateText : string -> option string;
  (** [new Date(text)]; [None] for an invalid date *)
  parseDate : string -> option Z
}.

Inductive Error := StorageError | NetworkError | BodyError.

(** What an observer of a run can see, in the order it happens. *)
Inductive Event :=
| NetworkRequest (url : string)
| ConsoleErrorEv (title : string)
| Progress (processedMovies totalMovies : nat)
| Sleep (ms : Z).

Record World := {
  storage : option CachedMovieData;
  clock : Z;
  trace : list Event
}.

Definition emit (e : Event) (w : World) : World :=
  {| storage := storage w; clock := clock w; trace := trace w ++ [e] |}.

Definition advanceClock (ms : Z) (w : World) : World :=
  {| storage := storage w; clock := clock w + ms; trace := trace w |}.

Definition store (doc : CachedMovieData) (w : World) : World :=
  {| storage := Some doc; clock := clock w; trace := trace w |}.

(** ** Asynchronous functions *)

(** The body of an [async] function, as far as this script uses the
    language: it returns, throws, reads the clock, logs an error, or awaits
    one of four operations.  The continuation of an awaited operation takes
    the value it resolves to or the error it rejects with. *)
Inductive Task (A : Type) : Type :=
| Return (a : A)
| Throw (e : Error)
| DateNow (k : Z -> Task A)
| ConsoleError (title : string) (k : Task A)
| AwaitStorageGet (k : Error + option CachedMovieData -> Task A)
| AwaitStorageSet (doc : CachedMovieData) (k : Error + unit -> Task A)
| AwaitFetch (url : string) (k : Error + Response -> Task A)
| AwaitText (r : Response) (k : Error + string -> Task A).

Arguments Return {A} a.
Arguments Throw {A} e.
Arguments DateNow {A} k.
Arguments ConsoleError {A} title k.
Arguments AwaitStorageGet {A} k.
Arguments AwaitStorageSet {A} doc k.
Arguments AwaitFetch {A} url k.
Arguments AwaitText {A} r k.

Fixpoint bind {A B : Type} (m : Task A) (f : A -> Task B) : Task B :=
  match m with
  | Return a => f a
  | Throw e => Throw e
  | DateNow k => DateNow (fun t => bind (k t) f)
  | ConsoleError title k => ConsoleError title (bind k f)
  | AwaitStorageGet k => AwaitStorageGet (fun r => bind (k r) f)
  | AwaitStorageSet doc k => AwaitStorageSet doc (fun r => bind (k r) f)
  | AwaitFetch url k => AwaitFetch url (fun r => bind (k r) f)
  | AwaitText r k => AwaitText r (fun x => bind (k x) f)
  end.

#[global] Instance Task_ret : MRet Task := @Return.
#[global] Instance Task_bind : MBind Task := fun A B f m => bind m f.

(** [try { body } catch (error) { handler }] *)
Fixpoint tryCatch {A : Type} (body : Task A) (handler : Error -> Task A) : Task A :=
  match body with
  | Return a => Return a
  | Throw e => handler e
  | DateNow k => DateNow (fun t => tryCatch (k t) handler)
  | ConsoleError title k => ConsoleError title (tryCatch k handler)
  | AwaitStorageGet k => AwaitStorageGet (fun r => tryCatch (k r) handler)
  | AwaitStorageSet doc k => AwaitStorageSet doc (fun r => tryCatch (k r) handler)
  | AwaitFetch url k => AwaitFetch url (fun r => tryCatch (k r) handler)
  | AwaitText r k => AwaitText r (fun x => tryCatch (k x) handler)
  end.

(** [await p]: the value of a fulfilled promise, the exception of a rejected one. *)
Definition settled {A : Type} (r : Error + A) : Task A :=
  match r with
  | inl e => Throw e
  | inr a => Return a
  end.

Definition storageLocalGet : Task (option CachedMovieData) := AwaitStorageGet settled.
Definition storageLocalSet (doc : CachedMovieData) : Task unit := AwaitStorageSet doc settled.
Definition fetch (url : string) : Task Response := AwaitFetch url settled.
Definition text (r : Response) : Task string := AwaitText r settled.
Definition dateNow : Task Z := DateNow Return.
Definition consoleError (title : string) : Task unit := ConsoleError title (Return tt).

(** ** The per-film resolver (the function mapped over a batch) *)

Definition CACHE_EXPIRY : Z := 24 * 60 * 60 * 1000.

(** The fetch path of the resolver, taken on a cache miss or an expired
    entry: from [fetch(movieUrl)] to the end of the [try] block. *)
Definition fetchFresh (P : Platform) (title movieUrl : string)
  : Task (option MovieAnniversary) :=
  response ← fetch movieUrl;
  html ← text response;
  match releaseDateText P html with
  | Some releaseText =>
    if String.eqb releaseText EmptyString then Return None else
    match parseDate P releaseText with
    | Some releaseDate =>
      today ← dateNow;
      let nextAnniversary :=
        calculateNextAnniversary (LocalTZA P) today releaseDate in
      existing ← storageLocalGet;
      let existingCache := default ∅ existing in
      now ← dateNow;
      _ ← storageLocalSet
            (<[movieUrl := {| Cached.releaseDate := toISOString releaseDate;
                              Cached.nextAnniversary := toISOString nextAnniversary;
                              Cached.lastFetched := now |}]> existingCache);
      Return (Some {| title := title; releaseDate := releaseDate;
                      nextAnniversary := nextAnniversary; url := movieUrl |})
    | None => Return None
    end
  | None => Return None
  end.

Definition resolveMovie (P : Platform) (movieElement : MovieElement)
  : Task (option MovieAnniversary) :=
  match anchor movieElement, imgAlt movieElement with
  | Some link, Some title =>
    if String.eqb title EmptyString then Return None else
    let movieUrl := link in
    tryCatch
      (cachedData ← storageLocalGet;
       let movieCache := cachedData ≫= (.!! movieUrl) in
       match movieCache with
       | Some movieCache =>
         now ← dateNow;
         if now - Cached.lastFetched movieCache <? CACHE_EXPIRY
         then
           let releaseDate := newDate (Cached.releaseDate movieCache) in
           let nextAnniversary := newDate (Cached.nextAnniversary movieCache) in
           Return (Some {| title := title; releaseDate := releaseDate;
                           nextAnniversary := nextAnniversary; url := movieUrl |})
         else fetchFresh P title movieUrl
       | None => fetchFresh P title movieUrl
       end)
      (fun error => _ ← consoleError title; Return None)
  | _, _ => Return None
  end.

(** ** The event loop *)

(** One settlement chosen by the environment: the pending operation of the
    task at position [who] of the batch settles, [elapsed] milliseconds after
    the previous settlement, by rejecting or by resolving. *)
Record Completion := { who : nat; rejected : bool; elapsed : N }.

(** Runs a task up to its next suspension point. *)
Fixpoint runSync {A : Type} (t : Task A) (w : World) : Task A * World :=
  match t with
  | DateNow k => runSync (k (clock w)) w
  | ConsoleError title k => runSync k (emit (ConsoleErrorEv title) w)
  | _ => (t, w)
  end.

(** Settles the operation a task is suspended on and runs the task on to
    its next suspension point.  A request is recorded when it settles. *)
Definition resume {A : Type} (P : Platform) (rejected : bool) (t : Task A) (w : World)
  : Task A * World :=
  match t with
  | AwaitStorageGet k =>
    runSync (k (if rejected then inl StorageError else inr (storage w))) w
  | AwaitStorageSet doc k =>
    if rejected then runSync (k (inl StorageError)) w
    else runSync (k (inr tt)) (store doc w)
  | AwaitFetch url k =>
    runSync (k (if rejected then inl NetworkError
                else inr {| body := responseBody P url |}))
            (emit (NetworkRequest url) w)
  | AwaitText r k =>
    runSync (k (if rejected then inl BodyError else inr (body r))) w
  | _ => runSync t w
  end.

Fixpoint eventLoop {A : Type} (P : Platform) (sched : list Completion)
    (tasks : list (Task A)) (w : World) : list (Task A) * World :=
  match sched with
  | [] => (tasks, w)
  | c :: sched =>
    let w := advanceClock (Z.of_N (elapsed c)) w in
    match tasks !! who c with
    | Some t =>
      let '(t', w') := resume P (rejected c) t w in
      eventLoop P sched (<[who c := t']> tasks) w'
    | None => eventLoop P sched tasks w
    end
  end.

(** Once the environment's list is used up, every operation still pending
    resolves at once: no operation hangs. *)
Fixpoint finish {A : Type} (P : Platform) (t : Task A) (w : World) : (Error + A) * World :=
  match t with
  | Return a => (inr a, w)
  | Throw e => (inl e, w)
  | DateNow k => finish P (k (clock w)) w
  | ConsoleError title k => finish P k (emit (ConsoleErrorEv title) w)
  | AwaitStorageGet k => finish P (k (inr (storage w))) w
  | AwaitStorageSet doc k => finish P (k (inr tt)) (store doc w)
  | AwaitFetch url k =>
    finish P (k (inr {| body := responseBody P url |})) (emit (NetworkRequest url) w)
  | AwaitText r k => finish P (k (inr (body r))) w
  end.

Fixpoint startAll {A : Type} (tasks : list (Task A)) (w : World) : list (Task A) * World :=
  match tasks with
  | [] => ([], w)
  | t :: tasks =>
    let '(t', w1) := runSync t w in
    let '(tasks', w2) := startAll tasks w1 in
    (t' :: tasks', w2)
  end.

Fixpoint finishAll {A : Type} (P : Platform) (tasks : list (Task A)) (w : World)
  : list (Error + A) * World :=
  match tasks with
  | [] => ([], w)
  | t :: tasks =>
    let '(r, w1) := finish P t w in
    let '(rs, w2) := finishAll P tasks w1 in
    (r :: rs, w2)
  end.

(** The values of the promises in the order of the promises, or the first
    rejection. *)
Fixpoint allFulfilled {A : Type} (rs : list (Error + A)) : Error + list A :=
  match rs with
  | [] => inr []
  | inl e :: _ => inl e
  | inr a :: rs =>
    match allFulfilled rs with
    | inl e => inl e
    | inr l => inr (a :: l)
    end
  end.

(** [await Promise.all(batch.map(async ...))]: every function of the batch is
    started, the environment settles their operations in the order it
    chooses, and the results come back in the order of the batch. *)
Definition promiseAll {A : Type} (P : Platform) (sched : list Completion)
    (tasks : list (Task A)) (w : World) : (Error + list A) * World :=
  let '(started, w1) := startAll tasks w in
  let '(suspended, w2) := eventLoop P sched started w1 in
  let '(results, w3) := finishAll P suspended w2 in
  (allFulfilled results, w3).

(** ** [Array.prototype] *)

Module JSArray.

Definition slice {A : Type} (arr : list A) (start stop : nat) : list A :=
  take (stop - start) (drop start arr).

Fixpoint insertSorted {A : Type} (compareFn : A -> A -> Z) (x : A) (l : list A) : list A :=
  match l with
  | [] => [x]
  | y :: l' =>
    if compareFn x y <=? 0 then x :: l else y :: insertSorted compareFn x l'
  end.

(** [arr.sort(compareFn)]: a stable sort; each element, taken from the
    right, goes in front of the first element it does not compare
    greater than.  For a comparison by a numeric key every stable sort
    returns the same list. *)
Definition sort {A : Type} (compareFn : A -> A -> Z) (arr : list A) : list A :=
  foldr (insertSorted compareFn) [] arr.

End JSArray.

(** ** The click handler of the list page *)

Inductive Outcome (A : Type) : Type :=
| Done (a : A)
| Rejected (e : Error)
| OutOfFuel.

Arguments Done {A} a.
Arguments Rejected {A} e.
Arguments OutOfFuel {A}.

Definition BATCH_SIZE : nat := 5.
Definition DELAY_BETWEEN_BATCHES : Z := 1000.

(** What a run hands over: the list given to the panel and, as a history
    variable the source does not keep, the [batchResults] of every
    iteration, appended in order. *)
Record Run := {
  panelMovies : list MovieAnniversary;
  settledResults : list (option MovieAnniversary)
}.

(** The [for] loop over the batches, with the two constants as parameters;
    [scheds] gives the environment's settlements batch by batch. *)
Fixpoint batchLoop (P : Platform) (batchSize : nat) (delay : Z)
    (movieArray : list MovieElement) (totalMovies : nat)
    (fuel : nat) (i : nat) (scheds : list (list Completion))
    (processedMovies : nat) (movies : list MovieAnniversary)
    (history : list (option MovieAnniversary)) (w : World)
  : Outcome Run * World :=
  match fuel with
  | O => (OutOfFuel, w)
  | S fuel =>
    if (i <? length movieArray)%nat then
      let batch := JSArray.slice movieArray i (i + batchSize) in
      let batchPromises := resolveMovie P <$> batch in
      match promiseAll P (hd [] scheds) batchPromises w with
      | (inl e, w) => (Rejected e, w)
      | (inr batchResults, w) =>
        let processedMovies := (processedMovies + length batch)%nat in
        let w := emit (Progress processedMovies totalMovies) w in
        let movies := movies ++ omap id batchResults in
        let w :=
          if (i + batchSize <? length movieArray)%nat
          then advanceClock delay (emit (Sleep delay) w)
          else w in
        batchLoop P batchSize delay movieArray totalMovies fuel (i + batchSize)
                  (tl scheds) processedMovies movies (history ++ batchResults) w
      end
    else (Done {| panelMovies := movies; settledResults := history |}, w)
  end.

Definition compareAnniversaries (a b : MovieAnniversary) : Z :=
  nextAnniversary a - nextAnniversary b.

(** The handler with its constants as parameters: the sorted list handed to
    the panel and the world the run leaves. *)
Definition resolveAll (P : Platform) (batchSize : nat) (delay : Z)
    (scheds : list (list Completion)) (movieElements : list MovieElement) (w : World)
  : Outcome Run * World :=
  let totalMovies := length movieElements in
  let movieArray := movieElements in
  match batchLoop P batchSize delay movieArray totalMovies
                  (S (length movieArray)) 0 scheds 0 [] [] w with
  | (Done run, w) =>
    (Done {| panelMovies := JSArray.sort compareAnniversaries (panelMovies run);
             settledResults := settledResults run |}, w)
  | other => other
  end.

Definition clickHandler (P : Platform)
    (scheds : list (list Completion)) (movieElements : list MovieElement) (w : World)
  : Outcome Run * World :=
  resolveAll P BATCH_SIZE DELAY_BETWEEN_BATCHES scheds movieElements w.

(** ** Vocabulary of the statements *)

(** 29 February is the only day of the calendar that a year can lack. *)
Definition isLeapDay (zone : TimeZone) (t : Z) : Prop :=
  getMonth zone t = 1 /\ getDate zone t = 29.

(** The local time that [setFullYear] builds before it reads it as an
    instant: the month, day and time of day of [t] in the given year. *)
Definition movedInto (zone : TimeZone) (t year : Z) : Z :=
  let lt := LocalTime zone t in
  MakeDate (MakeDay year (MonthFromTime lt) (DateFromTime lt)) (TimeWithinDay lt).

(** What the statements about local dates ask of a zone.  Reading a local
    time as an instant and taking the local time of that instant leads back
    to the same calendar day: no change of offset skips over a midnight. *)
Definition keepsDay (zone : TimeZone) : Prop :=
  forall lt, Day (LocalTime zone (UTC zone lt)) = Day lt.

(** The local year never runs backwards: no change of offset sets the
    clock back across a new year. *)
Definition yearsInOrder (zone : TimeZone) : Prop :=
  forall a b, getFullYear zone a < getFullYear zone b -> a < b.

(** The local time [lt] exists in the zone: no change of offset skips it. *)
Definition unskipped (zone : TimeZone) (lt : Z) : Prop :=
  LocalTime zone (UTC zone lt) = lt.

(** The instant [t] is the one its own local time is read as: it does not
    lie in the second pass of an hour that a change of offset repeats. *)
Definition firstPass (zone : TimeZone) (t : Z) : Prop :=
  UTC zone (LocalTime zone t) = t.

(** The events the resolver of one element can cause. *)
Definition ownEvent (el : MovieElement) (e : Event) : Prop :=
  match e with
  | NetworkRequest u => anchor el = Some u
  | ConsoleErrorEv t => imgAlt el = Some t
  | _ => False
  end.

Definition batchEvent (batch : list MovieElement) (e : Event) : Prop :=
  Exists (fun el => ownEvent el e) batch.

(** What the resolver of one element can resolve to: null, or an
    anniversary carrying the element's title and link. *)
Definition resultOf (el : MovieElement) (r : option MovieAnniversary) : Prop :=
  match r with
  | None => True
  | Some m => anchor el = Some (url m) /\ imgAlt el = Some (title m)
  end.

(** A behavioural specification of a task: whatever the environment
    answers, the task throws only if [throws] holds, causes only [allowed]
    events, and returns only values in [post]. *)
Fixpoint Spec {A : Type} (throws : Prop) (allowed : Event -> Prop) (post : A -> Prop)
    (t : Task A) : Prop :=
  match t with
  | Return a => post a
  | Throw _ => throws
  | DateNow k => forall now, Spec throws allowed post (k now)
  | ConsoleError title k =>
    allowed (ConsoleErrorEv title) /\ Spec throws allowed post k
  | AwaitStorageGet k => forall r, Spec throws allowed post (k r)
  | AwaitStorageSet _ k => forall r, Spec throws allowed post (k r)
  | AwaitFetch url k =>
    allowed (NetworkRequest url) /\ forall r, Spec throws allowed post (k r)
  | AwaitText _ k => forall r, Spec throws allowed post (k r)
  end.

(** A task that resolves to an anniversary as long as none of its own
    operations rejects, whatever the cache holds and whatever the time. *)
Fixpoint Robust (P : Platform) (t : Task (option MovieAnniversary)) : Prop :=
  match t with
  | Return r => is_Some r
  | Throw _ => False
  | DateNow k => forall now, Robust P (k now)
  | ConsoleError _ k => Robust P k
  | AwaitStorageGet k => forall doc, Robust P (k (inr doc))
  | AwaitStorageSet _ k => Robust P (k (inr tt))
  | AwaitFetch url k => Robust P (k (inr {| body := responseBody P url |}))
  | AwaitText r k => Robust P (k (inr (body r)))
  end.

(** An element with a link, a title, and a page on which the release date
    is found and parses. *)
Definition resolvable (P : Platform) (el : MovieElement) : Prop :=
  exists link title releaseText releaseDate,
    anchor el = Some link /\ imgAlt el = Some title /\ title <> EmptyString /\
    releaseDateText P (responseBody P link) = Some releaseText /\
    releaseText <> EmptyString /\
    parseDate P releaseText = Some releaseDate.


(** The shape of the trace of a run over [batches], from a count of [n]
    films already processed: the events of a batch, one progress report,
    and a pause unless the batch is the last. *)
Inductive Paced (delay : Z) (total : nat)
  : nat -> list (list MovieElement) -> list Event -> Prop :=
| Paced_done n : Paced delay total n [] []
| Paced_last n batch tr :
    Forall (batchEvent batch) tr ->
    Paced delay total n [batch] (tr ++ [Progress (n + length batch) total])
| Paced_next n batch batches tr rest :
    batches <> [] ->
    Forall (batchEvent batch) tr ->
    Paced delay total (n + length batch) batches rest ->
    Paced delay total n (batch :: batches)
          (tr ++ Progress (n + length batch) total :: Sleep delay :: rest).

(** The counts carried by the progress reports of a run over [batches]. *)
Fixpoint runningTotals (n : nat) (batches : list (list MovieElement)) : list nat :=
  match batches with
  | [] => []
  | batch :: batches => (n + length batch)%nat :: runningTotals (n + length batch) batches
  end.

(** The environment settles the operations of the task at position [j] one
    after the other, rejecting those marked [true]. *)
Definition settlements (j : nat) (outcomes : list bool) : list Completion :=
  (fun r => {| who := j; rejected := r; elapsed := 0 |}) <$> outcomes.

(** The cache holds an entry for [link] that is less than a day old. *)
Definition usable (w : World) (link : string) : Prop :=
  exists movieCache,
    storage w ≫= (.!! link) = Some movieCache /\
    clock w - Cached.lastFetched movieCache < 24 * 60 * 60 * 1000.

(** What the resolver returns on a cache hit. *)
Definition fromCache (title link : string) (movieCache : Cached.entry) : MovieAnniversary :=
  {| title := title;
     releaseDate := instant (Cached.releaseDate movieCache);
     nextAnniversary := instant (Cached.nextAnniversary movieCache);
     url := link |}.

Definition progressReports (tr : list Event) : list (nat * nat) :=
  omap (fun e => match e with Progress p t => Some (p, t) | _ => None end) tr.

Definition awaitsFetch {A : Type} (t : Task A) (url : string) : Prop :=
  match t with AwaitFetch u _ => u = url | _ => False end.

(** The comparison and the order that a numeric key induces. *)
Definition compareBy {A : Type} (key : A -> Z) (a b : A) : Z := key a - key b.
Definition ascendingBy {A : Type} (key : A -> Z) (a b : A) : Prop := key a <= key b.

(** [w'] continues [w]: its trace is that of [w] followed by [allowed]
    events. *)
Definition extends (allowed : Event -> Prop) (w w' : World) : Prop :=
  exists tr, trace w' = trace w ++ tr /\ Forall allowed tr.

(** The invariant of the task of an element during the event loop; the
    flag marks an element whose task is moreover robust. *)
Definition taskInv (P : Platform) (x : MovieElement * bool)
    (t : Task (option MovieAnniversary)) : Prop :=
  Spec False (ownEvent x.1) (resultOf x.1) t /\ (x.2 = true -> Robust P t).

Definition spares (x : MovieElement * bool) (rej : bool) : Prop :=
  x.2 = true -> rej = false.

Definition resultInv (x : MovieElement * bool) (r : option MovieAnniversary) : Prop :=
  resultOf x.1 r /\ (x.2 = true -> is_Some r).

(** The environment spares the flagged elements of [xs], the elements
    still to be processed, batch after batch. *)
Definition schedSpares (batchSize : nat) (xs : list (MovieElement * bool))
    (scheds : list (list Completion)) : Prop :=
  forall b sched c x,
    scheds !! b = Some sched -> c ∈ sched -> (who c < batchSize)%nat ->
    xs !! (b * batchSize + who c)%nat = Some x -> spares x (rejected c).

(** No element is flagged: nothing is asked of the environment. *)
Definition unflagged (els : list MovieElement) : list (MovieElement * bool) :=
  (fun el => (el, false)) <$> els.


(** *** Items that fail *)







(** A task that runs on to null without another suspension. *)
Fixpoint Nullish (t : Task (option MovieAnniversary)) : Prop :=
  match t with
  | Return r => r = None
  | DateNow k => forall now, Nullish (k now)
  | ConsoleError _ k => Nullish k
  | _ => False
  end.

(** A task that resolves to null if, after at most [n] operations that
    resolve, one is rejected or the task has ended: a rejection of its
    pending operation takes it to null at once, and as long as the cache
    holds nothing for [link] it neither ends otherwise nor writes an entry
    for [link]. *)
Fixpoint Doomed (P : Platform) (link : string) (n : nat)
    (t : Task (option MovieAnniversary)) : Prop :=
  match t with
  | Return r => r = None
  | Throw _ => False
  | DateNow k => forall now, Doomed P link n (k now)
  | ConsoleError _ k => Doomed P link n k
  | AwaitStorageGet k =>
    Nullish (k (inl StorageError)) /\
    match n with
    | O => True
    | S n => forall doc, doc ≫= (.!! link) = None -> Doomed P link n (k (inr doc))
    end
  | AwaitStorageSet doc k =>
    Nullish (k (inl StorageError)) /\
    match n with
    | O => True
    | S n => doc !! link = None /\ Doomed P link n (k (inr tt))
    end
  | AwaitFetch url k =>
    Nullish (k (inl NetworkError)) /\
    match n with
    | O => True
    | S n => Doomed P link n (k (inr {| body := responseBody P url |}))
    end
  | AwaitText r k =>
    Nullish (k (inl BodyError)) /\
    match n with
    | O => True
    | S n => Doomed P link n (k (inr (body r)))
    end
  end.








(** ** Texts shown with an anniversary *)

(** [s[i]] for [s = ['th', 'st', 'nd', 'rd']] and an integer [i]: the
    element at 0..3, undefined elsewhere (a negative zero reads element 0). *)
Definition suffixAt (i : Z) : option string :=
  match i with
  | 0 => Some "th"%string
  | 1 => Some "st"%string
  | 2 => Some "nd"%string
  | 3 => Some "rd"%string
  | _ => None
  end.

(** [getOrdinalSuffix]; [%] is the remainder that takes the sign of the
    dividend, and [||] moves on from an undefined element. *)
Definition getOrdinalSuffix (n : Z) : string :=
  let v := Z.rem n 100 in
  match suffixAt (Z.rem (v - 20) 10) with
  | Some suffix => suffix
  | None =>
    match suffixAt v with
    | Some suffix => suffix
    | None => "th"%string
    end
  end.

(** [nextAnniversary.getFullYear() - releaseDate.getFullYear()], the count
    printed in front of the suffix. *)
Definition yearsSinceRelease (zone : TimeZone) (nextAnniversary releaseDate : Z) : Z :=
  getFullYear zone nextAnniversary - getFullYear zone releaseDate.

(** ** Texts of the calendar export *)

(** Strings are read character by character; the characters of Rocq's
    [string] stand for the code units below 256. *)
Module JSString.

(** [s.replace(/[...]/g, by)] for a class of single characters. *)
Fixpoint replaceEach (inClass : ascii -> bool) (by_ : ascii) (s : string) : string :=
  match s with
  | String unit rest =>
    String (if inClass unit then by_ else unit) (replaceEach inClass by_ rest)
  | EmptyString => EmptyString
  end.

(** [s.replace(/[...]/g, '')] for a class of single characters. *)
Fixpoint removeEach (inClass : ascii -> bool) (s : string) : string :=
  match s with
  | String unit rest =>
    if inClass unit then removeEach inClass rest
    else String unit (removeEach inClass rest)
  | EmptyString => EmptyString
  end.

(** [s.split(c)[0]] for a separator of one character. *)
Fixpoint beforeFirst (c : ascii) (s : string) : string :=
  match s with
  | String unit rest =>
    if Ascii.eqb unit c then EmptyString else String unit (beforeFirst c rest)
  | EmptyString => EmptyString
  end.

(** [parts.join(sep)] *)
Fixpoint join (sep : string) (parts : list string) : string :=
  match parts with
  | [] => EmptyString
  | [part] => part
  | part :: parts => part +:+ sep +:+ join sep parts
  end.

Fixpoint allChars (ok : ascii -> bool) (s : string) : bool :=
  match s with
  | EmptyString => true
  | String c s' => ok c && allChars ok s'
  end.

Definition isDigit (c : ascii) : bool :=
  (48 <=? nat_of_ascii c)%nat && (nat_of_ascii c <=? 57)%nat.

(** The class [[a-z0-9]] under the flag [i]. *)
Definition isAlphanumeric (c : ascii) : bool :=
  isDigit c
  || ((65 <=? nat_of_ascii c)%nat && (nat_of_ascii c <=? 90)%nat)
  || ((97 <=? nat_of_ascii c)%nat && (nat_of_ascii c <=? 122)%nat).

End JSString.

(** The name of the downloaded file:
    [`${title.replace(/[^a-z0-9]/gi, '_')}_anniversary.ics`]. *)
Definition exportFileName (title : string) : string :=
  JSString.replaceEach (fun c => negb (JSString.isAlphanumeric c)) "_" title
  +:+ "_anniversary.ics".

(** [Date.prototype.toISOString] (ECMA-262, 21.4.4.36 and 21.4.1.32). *)
Module ISO8601.

Definition HourFromTime (t : Z) : Z := (t / 3600000) mod 24.
Definition MinFromTime (t : Z) : Z := (t / 60000) mod 60.
Definition SecFromTime (t : Z) : Z := (t / 1000) mod 60.
Definition msFromTime (t : Z) : Z := t mod 1000.

Definition digit (n : Z) : ascii :=
  match n with
  | 0 => "0" | 1 => "1" | 2 => "2" | 3 => "3" | 4 => "4"
  | 5 => "5" | 6 => "6" | 7 => "7" | 8 => "8" | _ => "9"
  end%char.

Definition pad2 (n : Z) : string :=
  String (digit (n / 10 mod 10)) (String (digit (n mod 10)) EmptyString).
Definition pad3 (n : Z) : string := String (digit (n / 100 mod 10)) (pad2 n).
Definition pad4 (n : Z) : string := String (digit (n / 1000 mod 10)) (pad3 n).
Definition pad6 (n : Z) : string :=
  String (digit (n / 100000 mod 10)) (String (digit (n / 10000 mod 10)) (pad4 n)).

(** Four digits for the years 0 to 9999, a sign and six digits otherwise. *)
Definition yearText (y : Z) : string :=
  if (0 <=? y) && (y <=? 9999) then pad4 y
  else String (if y <? 0 then "-"%char else "+"%char) (pad6 (Z.abs y)).

Definition dateText (sep : string) (t : Z) : string :=
  yearText (YearFromTime t) +:+ sep +:+ pad2 (MonthFromTime t + 1)
  +:+ sep +:+ pad2 (DateFromTime t).

Definition timeText (sep : string) (t : Z) : string :=
  pad2 (HourFromTime t) +:+ sep +:+ pad2 (MinFromTime t) +:+ sep +:+ pad2 (SecFromTime t).

Definition isoText (t : Z) : string :=
  dateText "-" t +:+ "T" +:+ timeText ":" t +:+ "." +:+ pad3 (msFromTime t) +:+ "Z".

(** [new Date(text)] on the form that [toISOString] writes (ECMA-262,
    21.4.1.32), with the field ranges that V8 checks; [None] stands for an
    invalid date and for every text of another form, which the platform
    reads in ways not modelled here. *)
Definition digitValue (c : ascii) : option Z :=
  if JSString.isDigit c then Some (Z.of_nat (nat_of_ascii c) - 48) else None.

Fixpoint digits (k : nat) (acc : Z) (s : string) : option (Z * string) :=
  match k with
  | O => Some (acc, s)
  | S k =>
    match s with
    | String c s' => v ← digitValue c; digits k (10 * acc + v) s'
    | EmptyString => None
    end
  end.

Definition expect (c : ascii) (s : string) : option string :=
  match s with
  | String a s' => if Ascii.eqb a c then Some s' else None
  | EmptyString => None
  end.

(** Four digits, or a sign and six digits; the year zero has no negative
    form. *)
Definition year (s : string) : option (Z * string) :=
  match s with
  | String c s' =>
    if Ascii.eqb c "+" then digits 6 0 s'
    else if Ascii.eqb c "-" then
      '(y, s') ← digits 6 0 s'; if y =? 0 then None else Some (- y, s')
    else digits 4 0 s
  | EmptyString => None
  end.

Definition parse (s : string) : option Z :=
  '(y, s) ← year s; s ← expect "-" s;
  '(mo, s) ← digits 2 0 s; s ← expect "-" s;
  '(d, s) ← digits 2 0 s; s ← expect "T" s;
  '(h, s) ← digits 2 0 s; s ← expect ":" s;
  '(mi, s) ← digits 2 0 s; s ← expect ":" s;
  '(sec, s) ← digits 2 0 s; s ← expect "." s;
  '(ms, s) ← digits 3 0 s; s ← expect "Z" s;
  match s with
  | EmptyString =>
    if (1 <=? mo) && (mo <=? 12) && (1 <=? d) && (d <=? 31)
       && (mi <=? 59) && (sec <=? 59)
       && ((h <=? 23) || ((h =? 24) && (mi =? 0) && (sec =? 0) && (ms =? 0)))
    then Some (MakeDate (MakeDay y (mo - 1) d) (h * 3600000 + mi * 60000 + sec * 1000 + ms))
    else None
  | _ => None
  end.

End ISO8601.

(** [formatICalDate], the stamp of the export. *)
Definition formatICalDate (date : Z) : string :=
  JSString.beforeFirst "."
    (JSString.removeEach (fun c => Ascii.eqb c "-" || Ascii.eqb c ":")
                         (ISO8601.isoText date))
  +:+ "Z".

(** [anniversaryDate.toISOString().split('T')[0].replace(/-/g, '')], the
    day of the all-day event. *)
Definition eventDay (anniversaryDate : Z) : string :=
  JSString.removeEach (fun c => Ascii.eqb c "-")
    (JSString.beforeFirst "T" (ISO8601.isoText anniversaryDate)).

(** The digits YYYYMMDD of the calendar day with the given day number. *)
Definition dayDigits (day : Z) : string :=
  let t := day * msPerDay in
  ISO8601.pad4 (YearFromTime t) +:+ ISO8601.pad2 (MonthFromTime t + 1)
  +:+ ISO8601.pad2 (DateFromTime t).

(** The digits of the local calendar date of [t], the date the page
    shows. *)
Definition localDay (zone : TimeZone) (t : Z) : string :=
  dayDigits (Day (LocalTime zone t)).

Definition CRLF : string := String "013" (String "010" EmptyString).
Definition LF : string := String "010" EmptyString.

(** [generateICalendarFile], with the value of [new Date()] passed in. *)
Definition generateICalendarFile (now : Z) (movieTitle : string) (anniversaryDate : Z)
    (letterboxdUrl : string) : string :=
  JSString.join CRLF
    [ "BEGIN:VCALENDAR";
      "VERSION:2.0";
      "PRODID:-//Movie Anniversary//EN";
      "BEGIN:VEVENT";
      "DTSTAMP:" +:+ formatICalDate now;
      "DTSTART;VALUE=DATE:" +:+ eventDay anniversaryDate;
      "SUMMARY:" +:+ movieTitle +:+ " Anniversary";
      "DESCRIPTION:Anniversary of " +:+ movieTitle +:+ LF
        +:+ "View on Letterboxd: " +:+ letterboxdUrl;
      "END:VEVENT";
      "END:VCALENDAR" ]%string.

(** ** Vocabulary of the request rate *)

Definition isRequest (e : Event) : bool :=
  match e with NetworkRequest _ => true | _ => false end.

(** The number of requests in a trace. *)
Definition requests (tr : list Event) : nat := length (filter (fun e => isRequest e = true) tr).

(** A trace read with an allowance of requests that only a pause renews:
    every request takes one from the allowance, which never runs out. *)
Fixpoint withinRate (batchSize allowance : nat) (tr : list Event) : Prop :=
  match tr with
  | [] => True
  | NetworkRequest _ :: tr =>
    (0 < allowance)%nat /\ withinRate batchSize (allowance - 1) tr
  | Sleep _ :: tr => withinRate batchSize batchSize tr
  | _ :: tr => withinRate batchSize allowance tr
  end.

(** A task that awaits at most [n] fetches, whatever the environment
    answers. *)
Fixpoint fetchBudget {A : Type} (n : nat) (t : Task A) : Prop :=
  match t with
  | Return _ => True
  | Throw _ => True
  | DateNow k => forall now, fetchBudget n (k now)
  | ConsoleError _ k => fetchBudget n k
  | AwaitStorageGet k => forall r, fetchBudget n (k r)
  | AwaitStorageSet _ k => forall r, fetchBudget n (k r)
  | AwaitFetch _ k => (0 < n)%nat /\ forall r, fetchBudget (n - 1) (k r)
  | AwaitText _ k => forall r, fetchBudget n (k r)
  end.

(** ** Debouncing *)

Module Debounce.

(** The variable [timeout] of a debounced function: the pending timer, as
    the time it is due and the arguments its callback [later] closes
    over; [None] once the timer has fired. *)
Definition Timeout (A : Type) : Type := option (Z * A).

(** [executedFunction(...args)] at the time [now]: the pending timer is
    cleared and a new one is set. *)
Definition executedFunction {A : Type} (wait : N) (now : Z) (args : A)
    (timeout : Timeout A) : Timeout A :=
  Some (now + Z.of_N wait, args).

(** The turn of the timers at the time [now]: a timer that is due runs
    [later], that is [func(...args)]; no timer runs before it is due. *)
Definition later {A S : Type} (func : A -> S -> S) (now : Z)
    (timeout : Timeout A) (s : S) : Timeout A * S :=
  match timeout with
  | Some (due, args) => if due <=? now then (None, func args s) else (timeout, s)
  | None => (timeout, s)
  end.

(** A debounced function on its own: it is called, time passes, the timers
    get their turn. *)
Inductive Trigger (A : Type) : Type :=
| Call (args : A)
| Wait (ms : N)
| Timers.

Arguments Call {A} args.
Arguments Wait {A} ms.
Arguments Timers {A}.

Record Debounced (A S : Type) : Type := {
  clock : Z;
  timeout : Timeout A;
  program : S
}.

Arguments clock {A S} _.
Arguments timeout {A S} _.
Arguments program {A S} _.

Definition react {A S : Type} (func : A -> S -> S) (wait : N)
    (s : Debounced A S) (i : Trigger A) : Debounced A S :=
  match i with
  | Call args =>
    {| clock := clock s;
       timeout := executedFunction wait (clock s) args (timeout s);
       program := program s |}
  | Wait ms =>
    {| clock := clock s + Z.of_N ms; timeout := timeout s; program := program s |}
  | Timers =>
    let '(timeout', program') := later func (clock s) (timeout s) (program s) in
    {| clock := clock s; timeout := timeout'; program := program' |}
  end.

Definition reactAll {A S : Type} (func : A -> S -> S) (wait : N)
    (inputs : list (Trigger A)) (s : Debounced A S) : Debounced A S :=
  foldl (react func wait) s inputs.

Definition isCall {A : Type} (i : Trigger A) : bool :=
  match i with Call _ => true | _ => false end.

(** The time that passes during a list of inputs. *)
Definition waited {A : Type} (inputs : list (Trigger A)) : Z :=
  foldr (fun i acc => match i with Wait ms => Z.of_N ms + acc | _ => acc end) 0 inputs.

End Debounce.

(** ** The script on a page: [init], [tryInit], [initListPage], [resetInit]
    and the observer *)

Module Content.

(** What the script reads off the document, as far as the page decides
    it. *)
Record Page := {
  (** [window.location.pathname.includes('/list/')] *)
  listPath : bool;
  (** an element matches
      ['.film-header, .film-header-lockup, div[class*="film-header"]'] *)
  filmHeader : bool;
  (** the [textContent], trimmed, of the first ['.release-table .date'] *)
  releaseDateElement : option string;
  (** the first ['.ratings-histogram-chart'], with whether it has a parent
      element *)
  ratingsSection : option bool;
  (** an element matches ['.list-title-intro'] *)
  listHeader : bool
}.

(** What an element of class [next-anniversary] shows. *)
Record AnniversaryElement := {
  count : Z;
  suffix : string;
  anniversary : Z;
  milestone : Milestone
}.

Record State := {
  isInitialized : bool;
  (** the [timeout] of [resetInit] *)
  timeout : Debounce.Timeout unit;
  (** the pending timers of [tryInit]: when each is due and the [attempts]
      of its call of [init] *)
  retryTimers : list (Z * nat);
  page : Page;
  (** the elements of class [next-anniversary] in the document; only the
      script creates them, the page can remove them *)
  anniversaryElements : list AnniversaryElement;
  (** the buttons the script has added to the list header *)
  buttons : nat;
  clock : Z
}.

Definition maxAttempts : nat := 20.

Definition withRetryTimers (timers : list (Z * nat)) (s : State) : State :=
  {| isInitialized := isInitialized s; timeout := timeout s; retryTimers := timers;
     page := page s; anniversaryElements := anniversaryElements s;
     buttons := buttons s; clock := clock s |}.

Definition withInitialized (b : bool) (s : State) : State :=
  {| isInitialized := b; timeout := timeout s; retryTimers := retryTimers s;
     page := page s; anniversaryElements := anniversaryElements s;
     buttons := buttons s; clock := clock s |}.

Definition withTimeout (t : Debounce.Timeout unit) (s : State) : State :=
  {| isInitialized := isInitialized s; timeout := t; retryTimers := retryTimers s;
     page := page s; anniversaryElements := anniversaryElements s;
     buttons := buttons s; clock := clock s |}.

Definition withClock (now : Z) (s : State) : State :=
  {| isInitialized := isInitialized s; timeout := timeout s;
     retryTimers := retryTimers s; page := page s;
     anniversaryElements := anniversaryElements s; buttons := buttons s;
     clock := now |}.

Section Script.

Variable P : Platform.

(** One run of [tryInit], for the call of [init] whose counter stands at
    [attempts]. *)
Definition tryInit (attempts : nat) (s : State) : State :=
  if negb (filmHeader (page s)) then
    let attempts := S attempts in
    if (attempts <? maxAttempts)%nat
    then withRetryTimers (retryTimers s ++ [(clock s + 1000, attempts)]) s
    else s
  else
    match anniversaryElements s with
    | _ :: _ => s
    | [] =>
      match releaseDateElement (page s), ratingsSection (page s) with
      | Some releaseText, Some hasParent =>
        if String.eqb releaseText EmptyString then s else
        match parseDate P releaseText with
        | None => s
        | Some releaseDate =>
          let nextAnniversary :=
            calculateNextAnniversary (LocalTZA P) (clock s) releaseDate in
          let nextMilestone :=
            calculateNextMilestoneAnniversary (LocalTZA P) (clock s) releaseDate in
          let yearsSinceRelease :=
            yearsSinceRelease (LocalTZA P) nextAnniversary releaseDate in
          let anniversaryElement :=
            {| count := yearsSinceRelease;
               suffix := getOrdinalSuffix yearsSinceRelease;
               anniversary := nextAnniversary;
               milestone := nextMilestone |} in
          {| isInitialized := true; timeout := timeout s;
             retryTimers := retryTimers s; page := page s;
             anniversaryElements :=
               if hasParent then [anniversaryElement] else [];
             buttons := buttons s; clock := clock s |}
        end
      | _, _ => s
      end
    end.

(** [initListPage], as far as the document shows it: a button more. *)
Definition initListPage (s : State) : State :=
  if listHeader (page s) then
    {| isInitialized := true; timeout := timeout s; retryTimers := retryTimers s;
       page := page s; anniversaryElements := anniversaryElements s;
       buttons := S (buttons s); clock := clock s |}
  else s.

Definition init (s : State) : State :=
  if isInitialized s then s
  else if listPath (page s) then initListPage s
  else tryInit 0 s.

(** The function that [resetInit] debounces. *)
Definition reset (_ : unit) (s : State) : State :=
  match anniversaryElements s with
  | [] => init (withInitialized false s)
  | _ :: _ => s
  end.

Definition resetInit (s : State) : State :=
  withTimeout (Debounce.executedFunction 500 (clock s) tt (timeout s)) s.

(** What happens to the script. *)
Inductive Input :=
(** the component is mounted: [init()] *)
| Mount
(** the listener of ['DOMContentLoaded'] *)
| DOMContentLoaded
(** the page changes the document, keeping so many of the script's
    elements and buttons, and the observer's callback runs; [relevant]
    says whether a target is or holds a film header or a release table *)
| Mutations (relevant : bool) (page' : Page) (kept keptButtons : nat)
(** time passes *)
| Wait (ms : N)
(** the turn of the timer of [resetInit] *)
| ResetTimer
(** the turn of a timer of [tryInit] *)
| RetryTimer (k : nat).

Definition step (s : State) (i : Input) : State :=
  match i with
  | Mount => init s
  | DOMContentLoaded => resetInit s
  | Mutations relevant page' kept keptButtons =>
    let s :=
      {| isInitialized := isInitialized s; timeout := timeout s;
         retryTimers := retryTimers s; page := page';
         anniversaryElements := take kept (anniversaryElements s);
         buttons := Nat.min keptButtons (buttons s); clock := clock s |} in
    if relevant then resetInit s else s
  | Wait ms => withClock (clock s + Z.of_N ms) s
  | ResetTimer =>
    let '(timeout', s') := Debounce.later reset (clock s) (timeout s) s in
    withTimeout timeout' s'
  | RetryTimer k =>
    match retryTimers s !! k with
    | Some (due, attempts) =>
      if due <=? clock s
      then tryInit attempts (withRetryTimers (delete k (retryTimers s)) s)
      else s
    | None => s
    end
  end.

Definition run (inputs : list Input) (s : State) : State := foldl step s inputs.

End Script.

(** The script as it is loaded. *)
Definition loaded (page : Page) (now : Z) : State :=
  {| isInitialized := false; timeout := None; retryTimers := [];
     page := page; anniversaryElements := []; buttons := 0; clock := now |}.

(** One second, then the turn of the first timer of [tryInit]. *)
Definition retryRound : list Input := [Wait 1000; RetryTimer 0].

(** A relevant change that leaves the document as it is, then the turn of
    the timer of [resetInit] after [ms] milliseconds. *)
Definition resetRound (s : State) (ms : N) : list Input :=
  [Mutations true (page s) (length (anniversaryElements s)) (buttons s); Wait ms; ResetTimer].

(** What every run of the script keeps: at most one element of class
    [next-anniversary], and no pending timer of [tryInit] beyond the
    nineteenth retry. *)
Definition bounded (s : State) : Prop :=
  (length (anniversaryElements s) <= 1)%nat /\
  Forall (fun timer => (1 <= timer.2 < maxAttempts)%nat) (retryTimers s).

End Content.

(** ** A small catalogue to run the handler on *)

Module Demo.

Definition platform : Platform := {|
  LocalTZA := fixedOffset 0;
  responseBody := fun url =>
    if String.eqb url "/film/alien/" then "alien.html"
    else if String.eqb url "/film/heat/" then "heat.html"
    else if String.eqb url "/film/brazil/" then "brazil.html"
    else if String.eqb url "/film/ran/" then "ran.html"
    else if String.eqb url "/film/jaws/" then "jaws.html"
    else if String.eqb url "/film/solaris/" then "solaris.html"
    else "missing.html";
  releaseDateText := fun html =>
    if String.eqb html "alien.html" then Some "25 May 1979"
    else if String.eqb html "heat.html" then Some "15 Dec 1995"
    else if String.eqb html "brazil.html" then Some "20 Feb 1985"
    else if String.eqb html "ran.html" then Some "01 Jun 1985"
    else if String.eqb html "jaws.html" then Some "20 Jun 1975"
    else if String.eqb html "solaris.html" then Some "TBA"
    else None;
  parseDate := fun releaseText =>
    if String.eqb releaseText "25 May 1979" then Some (civil 1979 4 25 0)
    else if String.eqb releaseText "15 Dec 1995" then Some (civil 1995 11 15 0)
    else if String.eqb releaseText "20 Feb 1985" then Some (civil 1985 1 20 0)
    else if String.eqb releaseText "01 Jun 1985" then Some (civil 1985 5 1 0)
    else if String.eqb releaseText "20 Jun 1975" then Some (civil 1975 5 20 0)
    else None
|}.

Definition poster (link title : string) : MovieElement :=
  {| anchor := Some link; imgAlt := Some title |}.

Definition alien : MovieElement := poster "/film/alien/" "Alien".
Definition heat : MovieElement := poster "/film/heat/" "Heat".
Definition brazil : MovieElement := poster "/film/brazil/" "Brazil".
Definition ran : MovieElement := poster "/film/ran/" "Ran".
Definition jaws : MovieElement := poster "/film/jaws/" "Jaws".
Definition solaris : MovieElement := poster "/film/solaris/" "Solaris".

(** Nothing cached, nothing logged, at the given time. *)
Definition freshWorld (now : Z) : World :=
  {| storage := None; clock := now; trace := [] |}.

(** Two resolvers of one batch, both through the fetch path, both reading
    the cache document before either writes it. *)
Definition racing : list Completion :=
  (fun j => {| who := j; rejected := false; elapsed := 10 |})
    <$> [0; 1; 0; 1; 0; 1; 0; 1; 0; 1]%nat.

(** Eastern Time with the daylight saving periods of 2025, 2026 and 2030,
    and standard time at every other instant, as in the spring of 1980. *)
Definition easternTime : TimeZone :=
  let standard := -5 * 3600000 in
  let daylight := -4 * 3600000 in
  {| offsetAt := fun t =>
       if (civil 2025 2 9 25200000 <=? t) && (t <? civil 2025 10 2 21600000)
          || (civil 2026 2 8 25200000 <=? t) && (t <? civil 2026 10 1 21600000)
          || (civil 2030 2 10 25200000 <=? t) && (t <? civil 2030 10 3 21600000)
       then daylight else standard;
     offsetOfLocal := fun lt =>
       if (civil 2025 2 9 10800000 <=? lt) && (lt <? civil 2025 10 2 7200000)
          || (civil 2026 2 8 10800000 <=? lt) && (lt <? civil 2026 10 1 7200000)
          || (civil 2030 2 10 10800000 <=? lt) && (lt <? civil 2030 10 3 7200000)
       then daylight else standard |}.

End Demo.

(** * Properties *)

(** ** Calendar facts *)

Section CalendarFacts.

Lemma isLeapYear_cases y :
  (isLeapYear y = true /\ DaysInYear y = 366) \/
  (isLeapYear y = false /\ DaysInYear y = 365).
Proof. unfold DaysInYear. destruct (isLeapYear y); auto. Qed.

Lemma DayFromYear_succ y : DayFromYear (y + 1) = DayFromYear y + DaysInYear y.
Proof.
  unfold DaysInYear, isLeapYear, DayFromYear.
  repeat match goal with |- context [?a =? ?b] => destruct (Z.eqb_spec a b) end;
    simpl; Z.to_euclidean_division_equations; lia.
Qed.

Lemma DayFromYear_lt y y' : y < y' -> DayFromYear y < DayFromYear y'.
Proof. unfold DayFromYear. intros. Z.to_euclidean_division_equations. lia. Qed.

Lemma DayFromYear_le y y' : y <= y' -> DayFromYear y <= DayFromYear y'.
Proof.
  intros H. destruct (Z.eq_dec y y') as [->|]; [lia|].
  apply Z.lt_le_incl, DayFromYear_lt. lia.
Qed.

Lemma YearFromTime_spec t :
  DayFromYear (YearFromTime t) <= Day t < DayFromYear (YearFromTime t + 1).
Proof.
  unfold YearFromTime. generalize (Day t) as d. intros d.
  set (y0 := 1970 + 400 * d / 146097).
  assert (DayFromYear (y0 - 1) <= d < DayFromYear (y0 + 2)) as Hb.
  { unfold DayFromYear, y0. Z.to_euclidean_division_equations. lia. }
  repeat match goal with |- context [?a <=? ?b] => destruct (Z.leb_spec a b) end.
  - replace (y0 + 1 + 1) with (y0 + 2) by lia. lia.
  - lia.
  - replace (y0 - 1 + 1) with y0 by lia. lia.
Qed.

Lemma YearFromTime_unique t y :
  DayFromYear y <= Day t < DayFromYear (y + 1) -> YearFromTime t = y.
Proof.
  intros Hy. pose proof (YearFromTime_spec t) as Hs.
  destruct (Z.lt_trichotomy (YearFromTime t) y) as [Hlt|[->|Hgt]]; [|done|].
  - pose proof (DayFromYear_le (YearFromTime t + 1) y). lia.
  - pose proof (DayFromYear_le (y + 1) (YearFromTime t)). lia.
Qed.

Lemma Day_MakeDate day time :
  0 <= time < msPerDay -> Day (MakeDate day time) = day.
Proof.
  unfold Day, MakeDate, msPerDay. intros. Z.to_euclidean_division_equations. lia.
Qed.

Lemma TimeWithinDay_MakeDate day time :
  0 <= time < msPerDay -> TimeWithinDay (MakeDate day time) = time.
Proof.
  unfold TimeWithinDay, MakeDate, msPerDay. intros.
  Z.to_euclidean_division_equations. lia.
Qed.

Lemma TimeWithinDay_range t : 0 <= TimeWithinDay t < msPerDay.
Proof. unfold TimeWithinDay, msPerDay. apply Z.mod_pos_bound. lia. Qed.

Lemma MakeDate_Day t : MakeDate (Day t) (TimeWithinDay t) = t.
Proof.
  unfold MakeDate, Day, TimeWithinDay, msPerDay.
  Z.to_euclidean_division_equations. lia.
Qed.

Lemma InLeapYear_cases t :
  (isLeapYear (YearFromTime t) = true /\ InLeapYear t = 1) \/
  (isLeapYear (YearFromTime t) = false /\ InLeapYear t = 0).
Proof. unfold InLeapYear. destruct (isLeapYear _); auto. Qed.

Lemma DayWithinYear_range t : 0 <= DayWithinYear t < 365 + InLeapYear t.
Proof.
  pose proof (YearFromTime_spec t) as Hs.
  rewrite DayFromYear_succ in Hs. unfold DayWithinYear, InLeapYear, DaysInYear in *.
  destruct (isLeapYear _); lia.
Qed.

(** A time whose day number is [DayFromYear y + d], with [d] inside the
    year, lies in year [y] at day [d]. *)
Lemma year_of_day t y d :
  Day t = DayFromYear y + d ->
  0 <= d < DaysInYear y ->
  YearFromTime t = y /\ DayWithinYear t = d /\
  InLeapYear t = (if isLeapYear y then 1 else 0).
Proof.
  intros Hd Hr. assert (YearFromTime t = y) as Hy.
  { apply YearFromTime_unique. rewrite DayFromYear_succ. lia. }
  unfold DayWithinYear, InLeapYear. rewrite Hy. repeat split; lia.
Qed.

Ltac month_cases :=
  repeat match goal with
    | |- context [?a <? ?b] => destruct (Z.ltb_spec a b)
    | H : context [?a <? ?b] |- _ => destruct (Z.ltb_spec a b)
    end.

Lemma MonthFromTime_range t : 0 <= MonthFromTime t <= 11.
Proof. unfold MonthFromTime. month_cases; lia. Qed.

Lemma DateFromTime_range t : 1 <= DateFromTime t <= 31.
Proof.
  pose proof (DayWithinYear_range t). pose proof (InLeapYear_cases t).
  unfold DateFromTime, MonthFromTime, monthStart. month_cases; lia.
Qed.

(** Times on one day have one year, one month and one date. *)
Lemma fields_of_day a b :
  Day a = Day b ->
  YearFromTime a = YearFromTime b /\ MonthFromTime a = MonthFromTime b /\
  DateFromTime a = DateFromTime b.
Proof.
  intros Hd.
  assert (YearFromTime a = YearFromTime b) as Hy by (unfold YearFromTime; by rewrite Hd).
  assert (InLeapYear a = InLeapYear b) as Hl by (unfold InLeapYear; by rewrite Hy).
  assert (DayWithinYear a = DayWithinYear b) as Hw
    by (unfold DayWithinYear; by rewrite Hd, Hy).
  assert (MonthFromTime a = MonthFromTime b) as Hm
    by (unfold MonthFromTime; by rewrite Hw, Hl).
  repeat split; [done..|]. unfold DateFromTime. by rewrite Hw, Hl, Hm.
Qed.

Lemma YearFromTime_mono a b : Day a <= Day b -> YearFromTime a <= YearFromTime b.
Proof.
  intros Hd. pose proof (YearFromTime_spec a) as Ha. pose proof (YearFromTime_spec b) as Hb.
  destruct (Z.le_gt_cases (YearFromTime a) (YearFromTime b)) as [|Hgt]; [done|].
  pose proof (DayFromYear_le (YearFromTime b + 1) (YearFromTime a)). lia.
Qed.


Lemma MakeDay_in_year year t :
  let d := MakeDay year (MonthFromTime t) (DateFromTime t) - DayFromYear year in
  0 <= d < DaysInYear year.
Proof.
  pose proof (DayWithinYear_range t). pose proof (InLeapYear_cases t).
  pose proof (MonthFromTime_range t) as Hm.
  unfold MakeDay. rewrite (Z.div_small _ 12), (Z.mod_small _ 12), Z.add_0_r by lia.
  clear Hm. unfold DaysInYear, DateFromTime, MonthFromTime, monthStart.
  destruct (isLeapYear year); month_cases; simpl; lia.
Qed.

(** The local time that [setFullYear] builds lies in the target year and
    keeps the time of day; it keeps the month and the date unless the date
    is a 29 February and the target year has none, and then it is the
    1 March. *)
Lemma moved_fields lt year :
  let t' := MakeDate (MakeDay year (MonthFromTime lt) (DateFromTime lt))
                     (TimeWithinDay lt) in
  YearFromTime t' = year /\
  TimeWithinDay t' = TimeWithinDay lt /\
  (~ (MonthFromTime lt = 1 /\ DateFromTime lt = 29 /\ isLeapYear year = false) ->
   MonthFromTime t' = MonthFromTime lt /\ DateFromTime t' = DateFromTime lt) /\
  (MonthFromTime lt = 1 -> DateFromTime lt = 29 -> isLeapYear year = false ->
   MonthFromTime t' = 2 /\ DateFromTime t' = 1).
Proof.
  intros t'.
  pose proof (MakeDay_in_year year lt) as Hd. simpl in Hd.
  destruct (year_of_day t' year
              (MakeDay year (MonthFromTime lt) (DateFromTime lt) - DayFromYear year))
    as (Hy & Hw & Hl); [|exact Hd|].
  { unfold t'. rewrite Day_MakeDate by apply TimeWithinDay_range. lia. }
  split; [exact Hy|].
  split; [apply TimeWithinDay_MakeDate, TimeWithinDay_range|].
  split.
  - intros Hleap.
    assert (MonthFromTime t' = MonthFromTime lt) as Hm.
    { unfold MonthFromTime at 1. rewrite Hw, Hl. clear Hw Hl Hy t'.
      pose proof (DayWithinYear_range lt). pose proof (InLeapYear_cases lt).
      pose proof (MonthFromTime_range lt) as Hm.
      unfold MakeDay in *.
      rewrite (Z.div_small _ 12), (Z.mod_small _ 12), Z.add_0_r in * by lia.
      clear Hm. unfold DaysInYear, DateFromTime, MonthFromTime, monthStart in *.
      destruct (isLeapYear year); month_cases; simpl in *; lia. }
    split; [exact Hm|].
    unfold DateFromTime at 1. rewrite Hw, Hl, Hm. unfold MakeDay.
    pose proof (MonthFromTime_range lt) as Hr.
    rewrite (Z.div_small _ 12), (Z.mod_small _ 12), Z.add_0_r by lia. lia.
  - intros Hm Hdt Hleap.
    assert (DayWithinYear t' = 59) as Hw'.
    { rewrite Hw, Hm, Hdt. unfold MakeDay.
      change (1 / 12) with 0. change (1 mod 12) with 1.
      rewrite Z.add_0_r, Hleap. simpl. lia. }
    assert (InLeapYear t' = 0) as Hl' by (by rewrite Hl, Hleap).
    unfold DateFromTime, MonthFromTime. rewrite Hw', Hl'. done.
Qed.

End CalendarFacts.

(** ** Time zones *)

Lemma setFullYear_moved zone t year :
  setFullYear zone t year = UTC zone (movedInto zone t year).
Proof. reflexivity. Qed.

Section ZoneFacts.

Variable zone : TimeZone.
Hypothesis zone_keepsDay : keepsDay zone.

Lemma fields_setFullYear t year :
  getFullYear zone (setFullYear zone t year) = YearFromTime (movedInto zone t year) /\
  getMonth zone (setFullYear zone t year) = MonthFromTime (movedInto zone t year) /\
  getDate zone (setFullYear zone t year) = DateFromTime (movedInto zone t year).
Proof.
  unfold getFullYear, getMonth, getDate. rewrite setFullYear_moved.
  apply fields_of_day, zone_keepsDay.
Qed.

Lemma getFullYear_setFullYear t year :
  getFullYear zone (setFullYear zone t year) = year.
Proof.
  destruct (fields_setFullYear t year) as (-> & _ & _).
  apply (moved_fields (LocalTime zone t) year).
Qed.

Lemma month_date_setFullYear t year :
  ~ (isLeapDay zone t /\ isLeapYear year = false) ->
  getMonth zone (setFullYear zone t year) = getMonth zone t /\
  getDate zone (setFullYear zone t year) = getDate zone t.
Proof.
  intros Hleap. destruct (fields_setFullYear t year) as (_ & -> & ->).
  apply (moved_fields (LocalTime zone t) year).
  unfold isLeapDay, getMonth, getDate in Hleap. tauto.
Qed.


End ZoneFacts.

(** A zone whose offset never changes meets every condition. *)
Lemma fixedOffset_unskipped tza lt : unskipped (fixedOffset tza) lt.
Proof. unfold unskipped, LocalTime, UTC. simpl. lia. Qed.

Lemma fixedOffset_firstPass tza t : firstPass (fixedOffset tza) t.
Proof. unfold firstPass, LocalTime, UTC. simpl. lia. Qed.

Lemma fixedOffset_keepsDay tza : keepsDay (fixedOffset tza).
Proof. intros lt. by rewrite fixedOffset_unskipped. Qed.

Lemma fixedOffset_yearsInOrder tza : yearsInOrder (fixedOffset tza).
Proof.
  intros a b. unfold getFullYear, LocalTime. simpl. intros Hy.
  pose proof (YearFromTime_spec (a + tza)) as Ha.
  pose proof (YearFromTime_spec (b + tza)) as Hb.
  pose proof (DayFromYear_le (YearFromTime (a + tza) + 1) (YearFromTime (b + tza))) as Hm.
  unfold Day, msPerDay in *. Z.to_euclidean_division_equations. lia.
Qed.

(** Eastern Time, as far as the catalogue models it, meets them too: its
    changes of offset come at 2:00 on a Sunday of March or November. *)
Lemma easternTime_offsetAt t :
  offsetAt Demo.easternTime t
  = if (1741503600000 <=? t) && (t <? 1762063200000)
       || (1772953200000 <=? t) && (t <? 1793512800000)
       || (1899356400000 <=? t) && (t <? 1919916000000)
    then -14400000 else -18000000.
Proof. reflexivity. Qed.

Lemma easternTime_offsetOfLocal lt :
  offsetOfLocal Demo.easternTime lt
  = if (1741489200000 <=? lt) && (lt <? 1762048800000)
       || (1772938800000 <=? lt) && (lt <? 1793498400000)
       || (1899342000000 <=? lt) && (lt <? 1919901600000)
    then -14400000 else -18000000.
Proof. reflexivity. Qed.

Lemma offsetOfLocal_cases lt :
  (offsetOfLocal Demo.easternTime lt = -18000000 /\
   (lt < 1741489200000 \/ 1762048800000 <= lt < 1772938800000 \/
    1793498400000 <= lt < 1899342000000 \/ 1919901600000 <= lt)) \/
  (offsetOfLocal Demo.easternTime lt = -14400000 /\
   (1741489200000 <= lt < 1762048800000 \/ 1772938800000 <= lt < 1793498400000 \/
    1899342000000 <= lt < 1919901600000)).
Proof.
  rewrite easternTime_offsetOfLocal.
  destruct (Z.leb_spec 1741489200000 lt), (Z.ltb_spec lt 1762048800000),
    (Z.leb_spec 1772938800000 lt), (Z.ltb_spec lt 1793498400000),
    (Z.leb_spec 1899342000000 lt), (Z.ltb_spec lt 1919901600000); simpl; lia.
Qed.

Lemma offsetAt_cases t :
  (offsetAt Demo.easternTime t = -18000000 /\
   (t < 1741503600000 \/ 1762063200000 <= t < 1772953200000 \/
    1793512800000 <= t < 1899356400000 \/ 1919916000000 <= t)) \/
  (offsetAt Demo.easternTime t = -14400000 /\
   (1741503600000 <= t < 1762063200000 \/ 1772953200000 <= t < 1793512800000 \/
    1899356400000 <= t < 1919916000000)).
Proof.
  rewrite easternTime_offsetAt.
  destruct (Z.leb_spec 1741503600000 t), (Z.ltb_spec t 1762063200000),
    (Z.leb_spec 1772953200000 t), (Z.ltb_spec t 1793512800000),
    (Z.leb_spec 1899356400000 t), (Z.ltb_spec t 1919916000000); simpl; lia.
Qed.

Lemma easternTime_keepsDay : keepsDay Demo.easternTime.
Proof.
  intros lt. unfold LocalTime, UTC.
  destruct (offsetOfLocal_cases lt) as [[-> Hl]|[-> Hl]];
    destruct (offsetAt_cases (lt - -18000000)) as [[Ho Hu]|[Ho Hu]];
    destruct (offsetAt_cases (lt - -14400000)) as [[Ho' Hu']|[Ho' Hu']];
    rewrite ?Ho, ?Ho'; unfold Day, msPerDay; Z.to_euclidean_division_equations; lia.
Qed.

Lemma easternTime_days_in_order a b :
  a <= b -> Day (LocalTime Demo.easternTime a) <= Day (LocalTime Demo.easternTime b).
Proof.
  intros Hab. unfold LocalTime.
  destruct (offsetAt_cases a) as [[-> Ha]|[-> Ha]];
    destruct (offsetAt_cases b) as [[-> Hb]|[-> Hb]];
    unfold Day, msPerDay; Z.to_euclidean_division_equations; lia.
Qed.

Lemma easternTime_yearsInOrder : yearsInOrder Demo.easternTime.
Proof.
  intros a b Hy. destruct (Z.lt_ge_cases a b) as [|Hba]; [done|].
  pose proof (YearFromTime_mono _ _ (easternTime_days_in_order b a Hba)).
  unfold getFullYear in Hy. lia.
Qed.

(** No midnight is skipped in Eastern Time. *)
Lemma easternTime_midnight lt :
  TimeWithinDay lt = 0 -> unskipped Demo.easternTime lt.
Proof.
  unfold unskipped, LocalTime, UTC, TimeWithinDay, msPerDay. intros Hm.
  destruct (offsetOfLocal_cases lt) as [[-> Hl]|[-> Hl]];
    destruct (offsetAt_cases (lt - -18000000)) as [[Ho Hu]|[Ho Hu]];
    destruct (offsetAt_cases (lt - -14400000)) as [[Ho' Hu']|[Ho' Hu']];
    rewrite ?Ho, ?Ho'; try lia; exfalso; Z.to_euclidean_division_equations; lia.
Qed.

(** ** Properties of the anniversary calculators *)

Section Calculators.

Variable zone : TimeZone.
Hypothesis zone_keepsDay : keepsDay zone.
Hypothesis zone_yearsInOrder : yearsInOrder zone.

Lemma nextAnniversary_not_before today D :
  today <= calculateNextAnniversary zone today D.
Proof.
  unfold calculateNextAnniversary.
  destruct (Z.ltb_spec (setFullYear zone D (getFullYear zone today)) today); [|lia].
  apply Z.lt_le_incl, zone_yearsInOrder. rewrite getFullYear_setFullYear by done. lia.
Qed.




Lemma ceilDiv_5 a :
  let m := ceilDiv a 5 * 5 in (5 | m) /\ a <= m < a + 5.
Proof.
  unfold ceilDiv. split.
  - exists (- (- a / 5)). lia.
  - Z.to_euclidean_division_equations. lia.
Qed.


End Calculators.

Example anniversary_same_year :
  calculateNextAnniversary (fixedOffset 0) (civil 2025 5 10 0) (civil 2000 5 15 0)
  = civil 2025 5 15 0.
Proof. reflexivity. Qed.

Example anniversary_next_year :
  calculateNextAnniversary (fixedOffset 0) (civil 2025 5 20 0) (civil 2000 5 15 0)
  = civil 2026 5 15 0.
Proof. reflexivity. Qed.

(** On the day of the anniversary, once the release date's time of day has
    passed, the anniversary returned is next year's. *)
Example anniversary_later_that_day :
  calculateNextAnniversary (fixedOffset 0) (civil 2025 5 15 36000000) (civil 2000 5 15 0)
  = civil 2026 5 15 0.
Proof. reflexivity. Qed.

Example milestone_example :
  calculateNextMilestoneAnniversary (fixedOffset 0) (civil 2025 2 1 0) (civil 2000 0 1 0)
  = {| date := civil 2030 0 1 0; years := 30 |}.
Proof. reflexivity. Qed.

(** Daylight saving time: a film released at midnight of 1 April 1980 in
    New York, under standard time.  Before midnight of 1 April 2025 the
    anniversary is that midnight under daylight saving time, an hour
    earlier than under the offset of the release date; half an hour after
    it, the anniversary is that of 2026 and the milestone is the 50th. *)
Example anniversary_daylight_saving :
  let D := civil 1980 3 1 18000000 in
  calculateNextAnniversary Demo.easternTime (civil 2025 2 31 0) D
  = civil 2025 3 1 14400000 /\
  calculateNextAnniversary Demo.easternTime (civil 2025 3 1 16200000) D
  = civil 2026 3 1 14400000 /\
  calculateNextMilestoneAnniversary Demo.easternTime (civil 2025 3 1 16200000) D
  = {| date := civil 2030 3 1 14400000; years := 50 |}.
Proof. cbv zeta. refine (conj _ (conj _ _)); vm_compute; reflexivity. Qed.





(** ** Sorting *)

Section Sorting.

Context {A : Type} (key : A -> Z).

Lemma insertSorted_perm x l : JSArray.insertSorted (compareBy key) x l ≡ₚ x :: l.
Proof.
  induction l as [|y l IH]; simpl; [done|].
  destruct (_ <=? 0); [done|]. rewrite IH. apply Permutation_swap.
Qed.

Lemma sort_perm l : JSArray.sort (compareBy key) l ≡ₚ l.
Proof.
  induction l as [|x l IH]; simpl; [done|].
  rewrite insertSorted_perm. by f_equiv.
Qed.

Lemma insertSorted_sorted x l :
  StronglySorted (ascendingBy key) l ->
  StronglySorted (ascendingBy key) (JSArray.insertSorted (compareBy key) x l).
Proof.
  induction 1 as [|y l Hs IH Hy]; simpl.
  - repeat constructor.
  - unfold compareBy at 1. destruct (Z.leb_spec (key x - key y) 0) as [Hle|Hgt].
    + constructor; [by constructor|]. constructor; [unfold ascendingBy; lia|].
      eapply Forall_impl; [exact Hy|]. unfold ascendingBy. intros; simpl in *; lia.
    + constructor; [done|]. rewrite insertSorted_perm.
      constructor; [unfold ascendingBy; lia|done].
Qed.

Lemma sort_sorted l : StronglySorted (ascendingBy key) (JSArray.sort (compareBy key) l).
Proof.
  induction l as [|x l IH]; simpl; [constructor|]. by apply insertSorted_sorted.
Qed.

Lemma insertSorted_stable k x l :
  filter (fun a => key a = k) (JSArray.insertSorted (compareBy key) x l)
  = filter (fun a => key a = k) (x :: l).
Proof.
  induction l as [|y l IH]; simpl; [done|].
  unfold compareBy at 1. destruct (Z.leb_spec (key x - key y) 0) as [Hle|Hgt]; [done|].
  rewrite (filter_cons _ y), IH, !(filter_cons _ x), (filter_cons _ y).
  repeat case_decide; try done; lia.
Qed.

(** Elements with the same key keep the order they had in the input. *)
Lemma sort_stable k l :
  filter (fun a => key a = k) (JSArray.sort (compareBy key) l)
  = filter (fun a => key a = k) l.
Proof.
  induction l as [|x l IH]; simpl; [done|].
  rewrite insertSorted_stable, !filter_cons, IH. done.
Qed.

(** The keys of the output depend on the multiset of the input only. *)
Lemma sort_keys_perm l l' :
  l ≡ₚ l' ->
  key <$> JSArray.sort (compareBy key) l = key <$> JSArray.sort (compareBy key) l'.
Proof.
  intros Hp. apply (StronglySorted_unique Z.le).
  - pose proof (sort_sorted l) as Hs. induction Hs as [|a s Hs IH Ha]; [constructor|].
    simpl. constructor; [done|]. rewrite Forall_fmap. done.
  - pose proof (sort_sorted l') as Hs. induction Hs as [|a s Hs IH Ha]; [constructor|].
    simpl. constructor; [done|]. rewrite Forall_fmap. done.
  - rewrite !sort_perm. by f_equiv.
Qed.

Lemma filter_key_head (a : A) (l : list A) :
  filter (fun x => key x = key a) (a :: l) = a :: filter (fun x => key x = key a) l.
Proof. by rewrite filter_cons_True. Qed.

Lemma sorted_head_least (a b : A) (l : list A) :
  StronglySorted (ascendingBy key) (a :: l) -> b ∈ a :: l -> key a <= key b.
Proof.
  intros Hs Hb. apply StronglySorted_cons in Hs as [Ha _].
  apply elem_of_cons in Hb as [->|Hb]; [lia|].
  rewrite Forall_forall in Ha. by apply Ha.
Qed.

Lemma elem_of_same_filters (b : A) (l l' : list A) :
  (forall k, filter (fun x => key x = k) l = filter (fun x => key x = k) l') ->
  b ∈ l -> b ∈ l'.
Proof.
  intros Hf Hb.
  assert (b ∈ filter (fun x => key x = key b) l) as Hin by (by apply list_elem_of_filter).
  rewrite Hf in Hin. by apply list_elem_of_filter in Hin as [_ Hin].
Qed.

(** Two sorted lists in which the elements of every key come in the same
    order are the same list. *)
Lemma stable_sorted_unique (l l' : list A) :
  StronglySorted (ascendingBy key) l ->
  StronglySorted (ascendingBy key) l' ->
  (forall k, filter (fun x => key x = k) l = filter (fun x => key x = k) l') ->
  l = l'.
Proof.
  revert l'. induction l as [|a l IH]; intros l' Hs Hs' Hf.
  - destruct l' as [|b l']; [done|].
    specialize (Hf (key b)). rewrite filter_key_head in Hf. done.
  - destruct l' as [|b l'].
    { specialize (Hf (key a)). rewrite filter_key_head in Hf. done. }
    assert (key a = key b) as Hk.
    { apply Z.le_antisymm.
      - apply (sorted_head_least a b l Hs).
        apply (elem_of_same_filters b (b :: l') (a :: l)); [done|left].
      - apply (sorted_head_least b a l' Hs').
        apply (elem_of_same_filters a (a :: l) (b :: l')); [done|left]. }
    pose proof (Hf (key a)) as Ha.
    rewrite filter_key_head, Hk, filter_key_head in Ha. injection Ha as -> Ha.
    f_equal. apply IH.
    + by apply StronglySorted_cons in Hs as [_ Hs].
    + by apply StronglySorted_cons in Hs' as [_ Hs'].
    + intros k. specialize (Hf k). rewrite !filter_cons in Hf.
      case_decide; [by injection Hf|done].
Qed.

(** So [JSArray.sort] returns what any stable sort returns. *)
Lemma sort_characterised (l l' : list A) :
  StronglySorted (ascendingBy key) l' ->
  (forall k, filter (fun x => key x = k) l' = filter (fun x => key x = k) l) ->
  l' = JSArray.sort (compareBy key) l.
Proof.
  intros Hs Hf. apply stable_sorted_unique; [done|apply sort_sorted|].
  intros k. by rewrite sort_stable.
Qed.

End Sorting.

(** ** Tasks *)

Section TaskFacts.

Context {A : Type}.
Variable P : Platform.
Implicit Types (t : Task A) (w : World).

Lemma extends_refl allowed w : extends allowed w w.
Proof. exists []. by rewrite app_nil_r. Qed.

Lemma extends_trans allowed w1 w2 w3 :
  extends allowed w1 w2 -> extends allowed w2 w3 -> extends allowed w1 w3.
Proof.
  intros (tr1 & E1 & F1) (tr2 & E2 & F2). exists (tr1 ++ tr2).
  rewrite E2, E1, app_assoc. split; [done|]. by apply Forall_app.
Qed.

Lemma extends_emit (allowed : Event -> Prop) e w :
  allowed e -> extends allowed w (emit e w).
Proof. intros He. exists [e]. split; [done|]. by constructor. Qed.

Lemma extends_same_trace allowed w1 w2 w3 :
  trace w2 = trace w1 -> extends allowed w2 w3 -> extends allowed w1 w3.
Proof. intros Ht (tr & E & F). exists tr. by rewrite E, Ht. Qed.

Lemma extends_mono (allowed allowed' : Event -> Prop) w w' :
  (forall e, allowed e -> allowed' e) ->
  extends allowed w w' -> extends allowed' w w'.
Proof.
  intros Hi (tr & E & F). exists tr. split; [done|]. eapply Forall_impl; eauto.
Qed.

Lemma runSync_spec throws allowed post t w :
  Spec throws allowed post t ->
  Spec throws allowed post (runSync t w).1 /\ extends allowed w (runSync t w).2.
Proof.
  revert w. induction t as [| |k IH|title k IH| | | |]; intros w Ht;
    try (split; [exact Ht|apply extends_refl]).
  - simpl. apply IH, Ht.
  - simpl. destruct Ht as [He Hk].
    destruct (IH (emit (ConsoleErrorEv title) w) Hk) as [Hs Hx].
    split; [done|]. eapply extends_trans; [|exact Hx]. by apply extends_emit.
Qed.

Lemma resume_spec throws allowed post rej t w :
  Spec throws allowed post t ->
  Spec throws allowed post (resume P rej t w).1 /\
  extends allowed w (resume P rej t w).2.
Proof.
  intros Ht. destruct t as [| | | |k|doc k|u k|r k];
    try exact (runSync_spec _ _ _ _ w Ht); simpl in *.
  - apply runSync_spec, Ht.
  - destruct rej.
    + apply runSync_spec, Ht.
    + destruct (runSync_spec throws allowed post (k (inr ())) (store doc w)) as [Hs Hx];
        [apply Ht|].
      split; [done|]. eapply extends_same_trace; [|exact Hx]. done.
  - destruct Ht as [He Hk].
    destruct (runSync_spec throws allowed post
                (k (if rej then inl NetworkError else inr {| body := responseBody P u |}))
                (emit (NetworkRequest u) w)) as [Hs Hx]; [apply Hk|].
    split; [done|]. eapply extends_trans; [|exact Hx]. by apply extends_emit.
  - apply runSync_spec, Ht.
Qed.

Lemma finish_spec allowed post t w :
  Spec False allowed post t ->
  exists a, (finish P t w).1 = inr a /\ post a /\ extends allowed w (finish P t w).2.
Proof.
  revert w. induction t as [a|e|k IH|title k IH|k IH|doc k IH|u k IH|r k IH];
    intros w Ht; simpl in *.
  - exists a. split; [done|]. split; [done|]. apply extends_refl.
  - done.
  - apply IH, Ht.
  - destruct Ht as [He Hk].
    destruct (IH (emit (ConsoleErrorEv title) w) Hk) as (a & E & Hp & Hx).
    exists a. split; [done|]. split; [done|].
    eapply extends_trans; [|exact Hx]. by apply extends_emit.
  - apply IH, Ht.
  - destruct (IH (inr ()) (store doc w) (Ht _)) as (a & E & Hp & Hx).
    exists a. split; [done|]. split; [done|].
    eapply extends_same_trace; [|exact Hx]. done.
  - destruct Ht as [He Hk].
    destruct (IH _ (emit (NetworkRequest u) w) (Hk (inr {| body := responseBody P u |})))
      as (a & E & Hp & Hx).
    exists a. split; [done|]. split; [done|].
    eapply extends_trans; [|exact Hx]. by apply extends_emit.
  - apply IH, Ht.
Qed.

End TaskFacts.

Section RobustFacts.

Variable P : Platform.

Lemma runSync_robust t w : Robust P t -> Robust P (runSync t w).1.
Proof.
  revert w. induction t as [| |k IH|title k IH| | | |]; intros w Ht; try exact Ht.
  - simpl. apply IH, Ht.
  - simpl. apply IH, Ht.
Qed.

Lemma resume_robust t w : Robust P t -> Robust P (resume P false t w).1.
Proof.
  intros Ht. destruct t; try exact (runSync_robust _ w Ht);
    simpl in *; apply runSync_robust, Ht.
Qed.

Lemma finish_robust t w : Robust P t -> exists m, (finish P t w).1 = inr (Some m).
Proof.
  revert w. induction t as [a|e|k IH|title k IH|k IH|doc k IH|u k IH|r k IH];
    intros w Ht; simpl in *; try (by apply IH); try done.
  destruct Ht as [m ->]. by exists m.
Qed.

End RobustFacts.

Section ResolverFacts.
Variable P : Platform.

Lemma bind_spec {A B} throws allowed (post : B -> Prop) (m : Task A) (f : A -> Task B) :
  Spec throws allowed (fun a => Spec throws allowed post (f a)) m ->
  Spec throws allowed post (bind m f).
Proof.
  induction m as [a|e|k IH|title k IH|k IH|doc k IH|u k IH|r k IH]; simpl; intros Hm;
    try done; try (intros x; apply IH, Hm).
  - destruct Hm as [He Hk]. split; [done|]. by apply IH.
  - destruct Hm as [He Hk]. split; [done|]. intros x. apply IH, Hk.
Qed.

Lemma tryCatch_spec {A} throws allowed (post : A -> Prop) (body : Task A) handler :
  Spec True allowed post body ->
  (forall e, Spec throws allowed post (handler e)) ->
  Spec throws allowed post (tryCatch body handler).
Proof.
  intros Hb Hh.
  induction body as [a|e|k IH|title k IH|k IH|doc k IH|u k IH|r k IH]; simpl in *;
    try done; try (intros x; apply IH, Hb).
  - destruct Hb as [He Hk]. split; [done|]. by apply IH.
  - destruct Hb as [He Hk]. split; [done|]. intros x. apply IH, Hk.
Qed.

Lemma settled_spec {A} allowed (post : A -> Prop) (r : Error + A) :
  (forall a, post a) -> Spec True allowed post (settled r).
Proof. intros Hp. destruct r; simpl; auto. Qed.

Ltac spec_step :=
  first
    [ done
    | apply bind_spec
    | progress (simpl Spec)
    | intros ?
    | split
    | match goal with
      | |- Spec _ _ _ (settled ?r) => destruct r; simpl
      | |- Spec _ _ _ (match ?x with _ => _ end) => destruct x eqn:?
      | |- Spec _ _ _ (if ?x then _ else _) => destruct x eqn:?
      end ].

Lemma fetchFresh_spec el title link :
  anchor el = Some link -> imgAlt el = Some title ->
  Spec True (ownEvent el) (resultOf el) (fetchFresh P title link).
Proof.
  intros Hl Ht. unfold fetchFresh, mbind, Task_bind, fetch, text, storageLocalGet,
    storageLocalSet, dateNow.
  repeat spec_step.
Qed.

Lemma resolveMovie_spec el :
  Spec False (ownEvent el) (resultOf el) (resolveMovie P el).
Proof.
  unfold resolveMovie.
  destruct (anchor el) as [link|] eqn:Hl; [|done].
  destruct (imgAlt el) as [title|] eqn:Ht; [|done].
  destruct (String.eqb title EmptyString); [done|].
  apply tryCatch_spec; [|intros e; simpl; by rewrite Ht].
  unfold mbind, Task_bind, storageLocalGet, dateNow.
  apply bind_spec. simpl. intros [e|cachedData]; simpl; [done|].
  destruct (option_bind _ _ _ _) as [movieCache|]; [|by apply fetchFresh_spec].
  intros now. simpl. destruct (_ <? _); [done|]. by apply fetchFresh_spec.
Qed.

Lemma tryCatch_robust body handler :
  Robust P body -> Robust P (tryCatch body handler).
Proof.
  induction body as [a|e|k IH|title k IH|k IH|doc k IH|u k IH|r k IH]; simpl;
    intros Hb; try done; try (intros x; apply IH, Hb); by apply IH.
Qed.

Lemma eqb_empty_false (s : string) : s <> EmptyString -> String.eqb s EmptyString = false.
Proof. intros Hs. by apply String.eqb_neq. Qed.

Lemma fetchFresh_robust title link releaseText releaseDate :
  releaseDateText P (responseBody P link) = Some releaseText ->
  releaseText <> EmptyString ->
  parseDate P releaseText = Some releaseDate ->
  Robust P (fetchFresh P title link).
Proof.
  intros Hx Hne Hd. unfold fetchFresh, mbind, Task_bind. simpl.
  rewrite Hx, (eqb_empty_false _ Hne), Hd. simpl. intros; eauto.
Qed.

Lemma resolveMovie_robust el : resolvable P el -> Robust P (resolveMovie P el).
Proof.
  intros (link & title & releaseText & releaseDate & Hl & Ht & Hne & Hx & Hne' & Hd).
  unfold resolveMovie. rewrite Hl, Ht, (eqb_empty_false _ Hne).
  apply tryCatch_robust. unfold mbind, Task_bind. simpl. intros doc.
  destruct (option_bind _ _ _ _) as [movieCache|]; [|by eapply fetchFresh_robust].
  simpl. intros now. destruct (_ <? _); [by eexists|by eapply fetchFresh_robust].
Qed.

End ResolverFacts.

(** ** One batch *)

Section BatchFacts.

Variable P : Platform.

Implicit Types (x : MovieElement * bool) (t : Task (option MovieAnniversary)).

Lemma taskInv_runSync x t w :
  taskInv P x t ->
  taskInv P x (runSync t w).1 /\ extends (ownEvent x.1) w (runSync t w).2.
Proof.
  intros [Hs Hr]. destruct (runSync_spec _ _ _ t w Hs) as [Hs' Hx].
  repeat split; [done| |done]. intros Hf. by apply runSync_robust, Hr.
Qed.

Lemma taskInv_resume x rej t w :
  spares x rej -> taskInv P x t ->
  taskInv P x (resume P rej t w).1 /\ extends (ownEvent x.1) w (resume P rej t w).2.
Proof.
  intros Hok [Hs Hr]. destruct (resume_spec P _ _ _ rej t w Hs) as [Hs' Hx].
  repeat split; [done| |done]. intros Hf. rewrite (Hok Hf). by apply resume_robust, Hr.
Qed.

Lemma taskInv_finish x t w :
  taskInv P x t ->
  exists r, (finish P t w).1 = inr r /\ resultInv x r /\
            extends (ownEvent x.1) w (finish P t w).2.
Proof.
  intros [Hs Hr]. destruct (finish_spec P _ _ t w Hs) as (r & E & Hp & Hx).
  exists r. repeat split; [done|done| |done]. intros Hf.
  destruct (finish_robust P t w (Hr Hf)) as [m Hm]. rewrite Hm in E.
  injection E as <-. by eexists.
Qed.

Lemma extends_own_batch (xs : list (MovieElement * bool)) x w w' :
  x ∈ xs -> extends (ownEvent x.1) w w' -> extends (batchEvent xs.*1) w w'.
Proof.
  intros Hin. apply extends_mono. intros e He. apply Exists_exists.
  exists x.1. split; [|done]. by apply list_elem_of_fmap_2.
Qed.

Lemma extends_batch_cons (el : MovieElement) (batch : list MovieElement) w w' :
  extends (batchEvent batch) w w' -> extends (batchEvent (el :: batch)) w w'.
Proof. apply extends_mono. intros e He. by apply Exists_cons_tl. Qed.

Lemma startAll_inv xs tasks w :
  Forall2 (taskInv P) xs tasks ->
  Forall2 (taskInv P) xs (startAll tasks w).1 /\
  extends (batchEvent xs.*1) w (startAll tasks w).2.
Proof.
  intros Hf. revert w. induction Hf as [|x t xs tasks Hx Hf IH]; intros w; simpl.
  - split; [constructor|apply extends_refl].
  - destruct (taskInv_runSync x t w Hx) as [Ht He].
    destruct (runSync t w) as [t' w1]. simpl in *.
    destruct (IH w1) as [Hts Hes]. destruct (startAll tasks w1) as [tasks' w2].
    simpl in *. split; [by constructor|].
    eapply extends_trans.
    + eapply (extends_own_batch (x :: xs)); [left|exact He].
    + by apply extends_batch_cons.
Qed.

Lemma eventLoop_inv xs sched tasks w :
  (forall c x, c ∈ sched -> xs !! who c = Some x -> spares x (rejected c)) ->
  Forall2 (taskInv P) xs tasks ->
  Forall2 (taskInv P) xs (eventLoop P sched tasks w).1 /\
  extends (batchEvent xs.*1) w (eventLoop P sched tasks w).2.
Proof.
  revert tasks w. induction sched as [|c sched IH]; intros tasks w Hok Hf; simpl.
  - split; [done|apply extends_refl].
  - assert (forall c' x, c' ∈ sched -> xs !! who c' = Some x -> spares x (rejected c'))
      as Hok' by (intros; eapply Hok; [by right|done]).
    destruct (tasks !! who c) as [t|] eqn:Ht.
    + destruct (Forall2_lookup_r _ _ _ _ _ Hf Ht) as (x & Hx & Hxt).
      destruct (taskInv_resume x (rejected c) t (advanceClock (Z.of_N (elapsed c)) w))
        as [Ht' He]; [eapply Hok; [left|done]|done|].
      destruct (resume P (rejected c) t _) as [t' w1]. simpl in *.
      destruct (IH (<[who c:=t']> tasks) w1 Hok') as [Hts Hes].
      { rewrite <- (list_insert_id xs (who c) x Hx). by apply Forall2_insert. }
      split; [done|]. eapply extends_trans; [|exact Hes].
      eapply extends_own_batch; [by eapply list_elem_of_lookup_2|].
      eapply extends_same_trace; [|exact He]. done.
    + destruct (IH tasks (advanceClock (Z.of_N (elapsed c)) w) Hok' Hf) as [Hts Hes].
      split; [done|]. eapply extends_same_trace; [|exact Hes]. done.
Qed.

Lemma finishAll_inv xs tasks w :
  Forall2 (taskInv P) xs tasks ->
  exists results,
    (finishAll P tasks w).1 = inr <$> results /\
    Forall2 resultInv xs results /\
    extends (batchEvent xs.*1) w (finishAll P tasks w).2.
Proof.
  intros Hf. revert w. induction Hf as [|x t xs tasks Hx Hf IH]; intros w; simpl.
  - exists []. split; [done|]. split; [constructor|apply extends_refl].
  - destruct (taskInv_finish x t w Hx) as (r & Er & Hr & He).
    destruct (finish P t w) as [r' w1]. simpl in *. subst r'.
    destruct (IH w1) as (results & Ers & Hrs & Hes).
    destruct (finishAll P tasks w1) as [rs w2]. simpl in *. subst rs.
    exists (r :: results). split; [done|]. split; [by constructor|].
    eapply extends_trans.
    + eapply (extends_own_batch (x :: xs)); [left|exact He].
    + by apply extends_batch_cons.
Qed.

Lemma allFulfilled_inr {A} (results : list A) :
  allFulfilled (inr <$> results) = inr (B:=list A) (A:=Error) results.
Proof. induction results as [|a l IH]; [done|]. rewrite fmap_cons. simpl. by rewrite IH. Qed.

Lemma promiseAll_inv xs sched tasks w :
  (forall c x, c ∈ sched -> xs !! who c = Some x -> spares x (rejected c)) ->
  Forall2 (taskInv P) xs tasks ->
  exists results w',
    promiseAll P sched tasks w = (inr results, w') /\
    Forall2 resultInv xs results /\
    extends (batchEvent xs.*1) w w'.
Proof.
  intros Hok Hf. unfold promiseAll.
  destruct (startAll_inv xs tasks w Hf) as [H1 E1].
  destruct (startAll tasks w) as [started w1]. simpl in *.
  destruct (eventLoop_inv xs sched started w1 Hok H1) as [H2 E2].
  destruct (eventLoop P sched started w1) as [suspended w2]. simpl in *.
  destruct (finishAll_inv xs suspended w2 H2) as (results & E & H3 & E3).
  destruct (finishAll P suspended w2) as [rs w3]. simpl in *. subst rs.
  exists results, w3. rewrite allFulfilled_inr. repeat split; [done|].
  eapply extends_trans; [exact E1|]. eapply extends_trans; [exact E2|exact E3].
Qed.

End BatchFacts.

(** ** The clock *)

Section ClockFacts.

Context {A : Type}.
Variable P : Platform.

Lemma runSync_clock (t : Task A) w : clock (runSync t w).2 = clock w.
Proof.
  revert w. induction t as [| |k IH|title k IH| | | |]; intros w; try done.
  - simpl. apply IH.
  - simpl. by rewrite IH.
Qed.

Lemma resume_clock rej (t : Task A) w : clock (resume P rej t w).2 = clock w.
Proof.
  destruct t; try apply runSync_clock; simpl; try destruct rej;
    by rewrite runSync_clock.
Qed.

Lemma finish_clock (t : Task A) w : clock (finish P t w).2 = clock w.
Proof.
  revert w. induction t as [| |k IH|title k IH|k IH|doc k IH|u k IH|r k IH];
    intros w; simpl; try done; by rewrite IH.
Qed.

Lemma startAll_clock (tasks : list (Task A)) w : clock (startAll tasks w).2 = clock w.
Proof.
  revert w. induction tasks as [|t tasks IH]; intros w; simpl; [done|].
  pose proof (runSync_clock t w) as Ht. destruct (runSync t w) as [t' w1].
  pose proof (IH w1) as Hts. destruct (startAll tasks w1) as [tasks' w2].
  simpl in *. lia.
Qed.

Lemma finishAll_clock (tasks : list (Task A)) w :
  clock (finishAll P tasks w).2 = clock w.
Proof.
  revert w. induction tasks as [|t tasks IH]; intros w; simpl; [done|].
  pose proof (finish_clock t w) as Ht. destruct (finish P t w) as [r w1].
  pose proof (IH w1) as Hts. destruct (finishAll P tasks w1) as [rs w2].
  simpl in *. lia.
Qed.

Lemma eventLoop_clock sched (tasks : list (Task A)) w :
  clock w <= clock (eventLoop P sched tasks w).2.
Proof.
  revert tasks w. induction sched as [|c sched IH]; intros tasks w; simpl; [lia|].
  destruct (tasks !! who c) as [t|].
  - pose proof (resume_clock (rejected c) t (advanceClock (Z.of_N (elapsed c)) w)) as Ht.
    destruct (resume P (rejected c) t _) as [t' w1].
    specialize (IH (<[who c:=t']> tasks) w1). simpl in *. lia.
  - specialize (IH tasks (advanceClock (Z.of_N (elapsed c)) w)). simpl in *. lia.
Qed.

(** Time does not run backwards while a batch is awaited. *)
Lemma promiseAll_clock sched (tasks : list (Task A)) w :
  clock w <= clock (promiseAll P sched tasks w).2.
Proof.
  unfold promiseAll.
  pose proof (startAll_clock tasks w) as H1. destruct (startAll tasks w) as [started w1].
  pose proof (eventLoop_clock sched started w1) as H2.
  destruct (eventLoop P sched started w1) as [suspended w2].
  pose proof (finishAll_clock suspended w2) as H3.
  destruct (finishAll P suspended w2) as [results w3]. simpl in *. lia.
Qed.

End ClockFacts.

(** ** The loop over the batches *)

Section LoopFacts.

Variable P : Platform.
Variables (batchSize : nat) (delay : Z).
Variable movieArray : list MovieElement.
Variable totalMovies : nat.
Hypothesis batchSize_pos : (0 < batchSize)%nat.

Lemma schedSpares_hd xs scheds c x :
  schedSpares batchSize xs scheds -> c ∈ hd [] scheds ->
  take batchSize xs !! who c = Some x -> spares x (rejected c).
Proof.
  intros Hs Hc Hx. destruct scheds as [|sched scheds]; simpl in Hc; [by inversion Hc|].
  apply lookup_take_Some in Hx as [Hx Hlt]. by apply (Hs 0%nat sched c x).
Qed.

Lemma schedSpares_tl xs scheds :
  schedSpares batchSize xs scheds -> schedSpares batchSize (drop batchSize xs) (tl scheds).
Proof.
  intros Hs b sched c x Hb Hc Hlt Hx. rewrite lookup_drop in Hx.
  destruct scheds as [|s0 scheds]; simpl in Hb; [done|].
  apply (Hs (S b) sched c x); [done|done|done|].
  rewrite <- Hx. f_equal. lia.
Qed.

Lemma batch_tasks xs :
  Forall (fun x => x.2 = true -> resolvable P x.1) xs ->
  Forall2 (taskInv P) xs (resolveMovie P <$> xs.*1).
Proof.
  induction 1 as [|x xs Hx Hxs IH]; simpl; constructor; [|done].
  split; [apply resolveMovie_spec|]. intros Hf. by apply resolveMovie_robust, Hx.
Qed.

Lemma Forall2_take_drop {X Y} (R : X -> Y -> Prop) n xs ys ys' :
  Forall2 R (take n xs) ys -> Forall2 R (drop n xs) ys' -> Forall2 R xs (ys ++ ys').
Proof. intros H1 H2. rewrite <- (take_drop n xs). by apply Forall2_app. Qed.

Lemma batchLoop_spec fuel : forall i scheds processed movies history w xs,
  xs.*1 = drop i movieArray ->
  (length xs < fuel)%nat ->
  Forall (fun x => x.2 = true -> resolvable P x.1) xs ->
  schedSpares batchSize xs scheds ->
  exists batches tr results w',
    batchLoop P batchSize delay movieArray totalMovies fuel i scheds
              processed movies history w
    = (Done {| panelMovies := movies ++ omap id results;
               settledResults := history ++ results |}, w') /\
    concat batches = drop i movieArray /\
    Forall (fun b => 0 < length b <= batchSize)%nat batches /\
    (length batches = (length xs + (batchSize - 1)) / batchSize)%nat /\
    trace w' = trace w ++ tr /\
    Paced delay totalMovies processed batches tr /\
    clock w + delay * Z.of_nat (length batches - 1) <= clock w' /\
    Forall2 resultInv xs results.
Proof.
  induction fuel as [|fuel IH]; intros i scheds processed movies history w xs
    Hxs Hfuel Hres Hsched; [lia|].
  assert (length xs = length (drop i movieArray)) as Hlen
    by (rewrite <- Hxs; by rewrite length_fmap).
  simpl. destruct (Nat.ltb_spec i (length movieArray)) as [Hi|Hi].
  2:{ rewrite drop_ge in Hxs, Hlen by done. destruct xs; [|done].
      exists [], [], [], w. rewrite !app_nil_r, drop_ge by done.
      repeat split; try done; try constructor; simpl; [|lia].
      symmetry. apply Nat.div_small. lia. }
  unfold JSArray.slice. replace (i + batchSize - i)%nat with batchSize by lia.
  rewrite <- Hxs, <- fmap_take.
  pose proof (promiseAll_clock P (hd [] scheds)
                (resolveMovie P <$> (take batchSize xs).*1) w) as Hck.
  destruct (promiseAll_inv P (take batchSize xs) (hd [] scheds)
              (resolveMovie P <$> (take batchSize xs).*1) w)
    as (results & w1 & E & Hr & (trb & Etr & Hev)).
  { intros c x. by apply schedSpares_hd. }
  { apply batch_tasks. by apply Forall_take. }
  rewrite E in Hck |- *. simpl in Hck.
  rewrite length_drop in Hlen.
  set (w2 := if (i + batchSize <? length movieArray)%nat then _ else _).
  set (processed' := (processed + length (take batchSize xs).*1)%nat).
  destruct (IH (i + batchSize)%nat (tl scheds) processed'
               (movies ++ omap id results) (history ++ results) w2
               (drop batchSize xs))
    as (batches & tr & results' & w' & -> & Hc & Hb & Hn & Et & Hp & Hck' & Hr').
  { rewrite fmap_drop, Hxs, drop_drop. done. }
  { rewrite length_drop. lia. }
  { by apply Forall_drop. }
  { by apply schedSpares_tl. }
  assert (trace w2 = trace w ++ trb ++
            Progress processed' totalMovies ::
            (if (i + batchSize <? length movieArray)%nat then [Sleep delay] else []))
    as Ew2.
  { unfold w2. destruct (_ <? _)%nat; simpl; rewrite Etr, <- !app_assoc; done. }
  exists ((take batchSize xs).*1 :: batches),
    (trb ++ Progress processed' totalMovies ::
       (if (i + batchSize <? length movieArray)%nat then [Sleep delay] else []) ++ tr),
    (results ++ results'), w'.
  assert (length (take batchSize xs) = Nat.min batchSize (length xs)) as Hlt
    by apply length_take.
  split; [by rewrite omap_app, !app_assoc|].
  split; [simpl; rewrite Hc, fmap_take, Hxs, <- drop_drop; apply take_drop|].
  split; [constructor; [rewrite length_fmap; lia|done]|].
  split.
  { simpl. rewrite Hn, length_drop.
    destruct (Nat.le_gt_cases (length xs) batchSize) as [Hle|Hgt].
    - replace (length xs - batchSize)%nat with 0%nat by lia.
      rewrite (Nat.div_small (0 + _)) by lia.
      apply (Nat.div_unique _ _ _ (length xs - 1)); lia.
    - replace (length xs + (batchSize - 1))%nat
        with (length xs - batchSize + (batchSize - 1) + 1 * batchSize)%nat by lia.
      rewrite Nat.div_add by lia. lia. }
  split; [rewrite Et, Ew2, <- !app_assoc; done|].
  apply (f_equal length) in Hc. rewrite length_drop in Hc.
  assert (clock w2 = clock w1 +
            (if (i + batchSize <? length movieArray)%nat then delay else 0)) as Hw2
    by (unfold w2; destruct (_ <? _)%nat; simpl; lia).
  destruct (Nat.ltb_spec (i + batchSize) (length movieArray)) as [Hm|Hm].
  - destruct batches as [|b batches]; [simpl in Hc; lia|].
    split; [by apply Paced_next|]. split; [|by apply (Forall2_take_drop _ batchSize)].
    cbn [length] in *. rewrite Nat.sub_succ, Nat.sub_0_r in *.
    rewrite Nat2Z.inj_succ, Z.mul_succ_r. lia.
  - destruct batches as [|b batches].
    + inversion Hp; subst. simpl in *.
      split; [by apply Paced_last|]. split; [lia|by apply (Forall2_take_drop _ batchSize)].
    + exfalso. simpl in Hc. rewrite length_app in Hc.
      apply Forall_cons_1 in Hb as [Hb _]. lia.
Qed.

End LoopFacts.

Lemma promiseAll_nil {A} P sched w :
  (promiseAll (A:=A) P sched [] w).1 = inr [].
Proof.
  unfold promiseAll. simpl.
  assert (forall w, (eventLoop (A:=A) P sched [] w).1 = []) as Hl.
  { induction sched as [|c sched IH]; intros w'; simpl; [done|]. apply IH. }
  specialize (Hl w). destruct (eventLoop P sched [] w) as [suspended w2].
  simpl in Hl. subst suspended. done.
Qed.

(** With a batch size of 0 the loop never moves on: whatever the fuel, it
    is used up. *)
Lemma batchLoop_zero_never_ends P delay movieArray totalMovies fuel :
  movieArray <> [] ->
  forall scheds processed movies history w,
    (batchLoop P 0 delay movieArray totalMovies fuel 0 scheds
               processed movies history w).1 = OutOfFuel.
Proof.
  intros Hne. induction fuel as [|fuel IH]; intros scheds processed movies history w;
    [done|].
  simpl. destruct movieArray as [|el arr]; [done|]. simpl.
  pose proof (promiseAll_nil (A:=option MovieAnniversary) P (hd [] scheds) w) as Hp.
  destruct (promiseAll P (hd [] scheds) [] w) as [r w1]. simpl in Hp. subst r.
  apply IH.
Qed.

Section PacedFacts.

Variables (delay : Z) (total : nat).

Lemma progressReports_app tr tr' :
  progressReports (tr ++ tr') = progressReports tr ++ progressReports tr'.
Proof. apply omap_app. Qed.

Lemma progressReports_batch batch tr :
  Forall (batchEvent batch) tr -> progressReports tr = [].
Proof.
  induction 1 as [|e tr He _ IH]; [done|].
  destruct e; try exact IH; apply Exists_exists in He as (el & _ & []).
Qed.

Lemma Paced_progress n batches tr :
  Paced delay total n batches tr ->
  progressReports tr = (fun c => (c, total)) <$> runningTotals n batches.
Proof.
  induction 1 as [n|n batch tr Hb|n batch batches tr rest Hne Hb Hp IH]; [done| |].
  - rewrite progressReports_app, (progressReports_batch batch) by done. done.
  - rewrite progressReports_app, (progressReports_batch batch) by done.
    cbn [runningTotals]. rewrite fmap_cons, <- IH. done.
Qed.

Lemma runningTotals_length n batches :
  length (runningTotals n batches) = length batches.
Proof. revert n. induction batches as [|b bs IH]; intros n; simpl; by rewrite ?IH. Qed.

Lemma runningTotals_above n batches :
  Forall (fun b => 0 < length b)%nat batches ->
  Forall (fun c => n < c)%nat (runningTotals n batches).
Proof.
  intros Hb. revert n. induction Hb as [|b bs Hl Hb IH]; intros n; simpl; constructor.
  - lia.
  - eapply Forall_impl; [apply IH|]. simpl. intros; lia.
Qed.

Lemma runningTotals_increasing n batches :
  Forall (fun b => 0 < length b)%nat batches ->
  StronglySorted lt (runningTotals n batches).
Proof.
  intros Hb. revert n. induction Hb as [|b bs Hl Hb IH]; intros n; simpl; constructor.
  - apply IH.
  - by apply runningTotals_above.
Qed.

Lemma runningTotals_last n batches :
  batches <> [] ->
  last (runningTotals n batches) = Some (n + length (concat batches))%nat.
Proof.
  revert n. induction batches as [|b bs IH]; intros n Hne; [done|].
  simpl. destruct bs as [|b' bs].
  - simpl. rewrite app_nil_r. done.
  - rewrite length_app, Nat.add_assoc, <- IH by done. done.
Qed.

End PacedFacts.

(** ** Items that fail *)

Section FateFacts.

Variable P : Platform.
Variable link : string.

Implicit Types (t : Task (option MovieAnniversary)) (w : World).







Lemma doomed_none n : Doomed P link n (Return None).
Proof. done. Qed.



















End FateFacts.

Section FateLoop.

Variable P : Platform.
Variable link : string.
Variables (batchSize : nat) (delay : Z).
Variable movieArray : list MovieElement.
Variable totalMovies : nat.




End FateLoop.


Section FailingItems.

Variable P : Platform.




End FailingItems.

(** ** Whole runs *)

Section RunFacts.

Variable P : Platform.

Lemma resolveAll_spec batchSize delay scheds movieElements w xs :
  (0 < batchSize)%nat ->
  xs.*1 = movieElements ->
  Forall (fun x => x.2 = true -> resolvable P x.1) xs ->
  schedSpares batchSize xs scheds ->
  exists batches tr results w',
    resolveAll P batchSize delay scheds movieElements w
    = (Done {| panelMovies := JSArray.sort compareAnniversaries (omap id results);
               settledResults := results |}, w') /\
    concat batches = movieElements /\
    Forall (fun b => 0 < length b <= batchSize)%nat batches /\
    (length batches = (length movieElements + (batchSize - 1)) / batchSize)%nat /\
    trace w' = trace w ++ tr /\
    Paced delay (length movieElements) 0 batches tr /\
    clock w + delay * Z.of_nat (length batches - 1) <= clock w' /\
    Forall2 resultInv xs results.
Proof.
  intros HB Hxs Hres Hsp. unfold resolveAll.
  destruct (batchLoop_spec P batchSize delay movieElements (length movieElements) HB
              (S (length movieElements)) 0%nat scheds 0%nat [] [] w xs)
    as (batches & tr & results & w' & -> & Hc & Hb & Hn & Ht & Hp & Hclk & Hr);
    [by rewrite drop_0|rewrite <- Hxs, length_fmap; lia|done|done|].
  exists batches, tr, results, w'. rewrite drop_0 in Hc.
  assert (length xs = length movieElements) as Hl
    by (rewrite <- Hxs; by rewrite length_fmap).
  rewrite Hl in Hn. done.
Qed.

Lemma unflagged_fst els : (unflagged els).*1 = els.
Proof. unfold unflagged. rewrite <- list_fmap_compose. apply list_fmap_id. Qed.

Lemma unflagged_false els : Forall (fun x => x.2 = false) (unflagged els).
Proof. unfold unflagged. rewrite Forall_fmap. by apply Forall_true. Qed.

Lemma resolveAll_any batchSize delay scheds movieElements w :
  (0 < batchSize)%nat ->
  exists batches tr results w',
    resolveAll P batchSize delay scheds movieElements w
    = (Done {| panelMovies := JSArray.sort compareAnniversaries (omap id results);
               settledResults := results |}, w') /\
    concat batches = movieElements /\
    Forall (fun b => 0 < length b <= batchSize)%nat batches /\
    (length batches = (length movieElements + (batchSize - 1)) / batchSize)%nat /\
    trace w' = trace w ++ tr /\
    Paced delay (length movieElements) 0 batches tr /\
    clock w + delay * Z.of_nat (length batches - 1) <= clock w' /\
    Forall2 resultOf movieElements results.
Proof.
  intros HB.
  destruct (resolveAll_spec batchSize delay scheds movieElements w
              (unflagged movieElements) HB (unflagged_fst _))
    as (batches & tr & results & w' & E & Hc & Hb & Hn & Ht & Hp & Hclk & Hr).
  - eapply Forall_impl; [apply unflagged_false|]. simpl. congruence.
  - intros b sched c x _ _ _ Hx Hf.
    pose proof (unflagged_false movieElements) as Hu.
    rewrite Forall_lookup in Hu. specialize (Hu _ _ Hx). simpl in Hu. congruence.
  - exists batches, tr, results, w'. repeat split; try done.
    rewrite <- (unflagged_fst movieElements). apply Forall2_fmap_l.
    eapply Forall2_impl; [exact Hr|]. by intros x r [H _].
Qed.

(** C1: for every positive batch size the run ends; the batches are
    consecutive pieces of the input of at most [batchSize] elements, in
    order; there is one progress report per batch, that is
    ceil(N / batchSize) of them; their counts increase strictly and the
    last one is N. *)
Theorem batches_and_progress batchSize delay scheds movieElements w :
  (0 < batchSize)%nat ->
  exists run w' batches tr,
    resolveAll P batchSize delay scheds movieElements w = (Done run, w') /\
    concat batches = movieElements /\
    Forall (fun b => 0 < length b <= batchSize)%nat batches /\
    trace w' = trace w ++ tr /\
    Paced delay (length movieElements) 0 batches tr /\
    let reports := progressReports tr in
    (length reports = (length movieElements + (batchSize - 1)) / batchSize)%nat /\
    length reports = length batches /\
    StronglySorted lt reports.*1 /\
    Forall (fun r => r.2 = length movieElements) reports /\
    (movieElements <> [] ->
     last reports = Some (length movieElements, length movieElements)).
Proof.
  intros HB.
  destruct (resolveAll_any batchSize delay scheds movieElements w HB)
    as (batches & tr & results & w' & E & Hc & Hb & Hn & Ht & Hp & Hclk & Hr).
  eexists _, w', batches, tr. split; [exact E|]. repeat (split; [done|]).
  pose proof (Paced_progress _ _ _ _ _ Hp) as Hrep. cbv zeta. rewrite Hrep.
  assert (Forall (fun b => 0 < length b)%nat batches) as Hpos
    by (eapply Forall_impl; [exact Hb|]; simpl; intros; lia).
  rewrite length_fmap, runningTotals_length.
  split; [done|]. split; [done|]. split.
  { rewrite <- list_fmap_compose. simpl.
    rewrite list_fmap_id. by apply runningTotals_increasing. }
  split; [by rewrite Forall_fmap; apply Forall_true|].
  intros Hne. rewrite fmap_last, runningTotals_last, Hc; [done|].
  intros ->. by apply Hne.
Qed.

(** C9: the handler runs with a batch size of 5 and a pause of 1000 ms; in
    its trace the events of a batch are followed by exactly one progress
    report, and that report by a pause if and only if another batch follows;
    the events of the next batch come after the pause, and the run lasts at
    least one pause per batch but the last. *)
Theorem progress_then_pause scheds movieElements w :
  BATCH_SIZE = 5%nat /\ DELAY_BETWEEN_BATCHES = 1000 /\
  exists run w' batches tr,
    clickHandler P scheds movieElements w = (Done run, w') /\
    concat batches = movieElements /\
    Forall (fun b => 0 < length b <= 5)%nat batches /\
    trace w' = trace w ++ tr /\
    Paced 1000 (length movieElements) 0 batches tr /\
    clock w + 1000 * Z.of_nat (length batches - 1) <= clock w'.
Proof.
  split; [done|]. split; [done|]. unfold clickHandler.
  destruct (resolveAll_any BATCH_SIZE DELAY_BETWEEN_BATCHES scheds movieElements w)
    as (batches & tr & results & w' & E & Hc & Hb & Hn & Ht & Hp & Hclk & Hr);
    [unfold BATCH_SIZE; lia|].
  eexists _, w', batches, tr. split; [exact E|]. done.
Qed.

(** C2: whatever order the environment settles the operations in, the
    list handed to the panel consists of exactly the non-null results,
    taken in the order of the input, sorted by ascending [nextAnniversary],
    equal dates keeping their input order; it is the only list that is so
    arranged, and its dates are the same for every rearrangement of those
    results. *)
Theorem results_dropped_kept_sorted scheds movieElements w :
  exists run w',
    clickHandler P scheds movieElements w = (Done run, w') /\
    Forall2 resultOf movieElements (settledResults run) /\
    let kept := omap id (settledResults run) in
    panelMovies run ≡ₚ kept /\
    StronglySorted (fun a b => nextAnniversary a <= nextAnniversary b)
                   (panelMovies run) /\
    (forall d, filter (fun m => nextAnniversary m = d) (panelMovies run)
               = filter (fun m => nextAnniversary m = d) kept) /\
    (forall arranged,
       StronglySorted (fun a b => nextAnniversary a <= nextAnniversary b) arranged ->
       (forall d, filter (fun m => nextAnniversary m = d) arranged
                  = filter (fun m => nextAnniversary m = d) kept) ->
       arranged = panelMovies run) /\
    (forall other, other ≡ₚ kept ->
       nextAnniversary <$> JSArray.sort compareAnniversaries other
       = nextAnniversary <$> panelMovies run).
Proof.
  unfold clickHandler.
  destruct (resolveAll_any BATCH_SIZE DELAY_BETWEEN_BATCHES scheds movieElements w)
    as (batches & tr & results & w' & E & Hc & Hb & Hn & Ht & Hp & Hclk & Hr);
    [unfold BATCH_SIZE; lia|].
  eexists _, w'. split; [exact E|]. simpl. split; [done|].
  split; [apply (sort_perm nextAnniversary)|].
  split; [apply (sort_sorted nextAnniversary)|].
  split; [intros d; apply (sort_stable nextAnniversary)|].
  split; [intros arranged Hs Hf; by apply (sort_characterised nextAnniversary)|].
  intros other Ho. by apply (sort_keys_perm nextAnniversary).
Qed.





End RunFacts.

(** ** The cache *)


Section CacheFacts.

Variable P : Platform.
Variables (el : MovieElement) (link title : string).
Hypothesis el_link : anchor el = Some link.
Hypothesis el_title : imgAlt el = Some title.
Hypothesis title_nonempty : title <> EmptyString.

Lemma usable_dec w : usable w link \/ ~ usable w link.
Proof.
  unfold usable. destruct (storage w ≫= (.!! link)) as [mc|]; [|right; by intros (? & ? & _)].
  destruct (Z.lt_ge_cases (clock w - Cached.lastFetched mc) (24 * 60 * 60 * 1000)).
  - left. by exists mc.
  - right. intros (mc' & [= <-] & Hlt). lia.
Qed.

Lemma cache_hit w movieCache :
  storage w ≫= (.!! link) = Some movieCache ->
  clock w - Cached.lastFetched movieCache < 24 * 60 * 60 * 1000 ->
  resume P false (resolveMovie P el) w
  = (Return (Some (fromCache title link movieCache)), w).
Proof.
  intros Hs Hv. unfold resolveMovie.
  rewrite el_link, el_title, (eqb_empty_false _ title_nonempty).
  unfold mbind at 1, Task_bind, storageLocalGet. simpl.
  change (option_bind _ _ (lookup link) (storage w)) with (storage w ≫= (.!! link)).
  rewrite Hs. simpl.
  destruct (Z.ltb_spec (clock w - Cached.lastFetched movieCache) CACHE_EXPIRY) as [|Hge];
    [done|]. unfold CACHE_EXPIRY in Hge. lia.
Qed.

Lemma cache_miss w :
  ~ usable w link ->
  resume P false (resolveMovie P el) w
  = (tryCatch (fetchFresh P title link)
              (fun error => _ ← consoleError title; Return None), w).
Proof.
  intros Hu. unfold resolveMovie.
  rewrite el_link, el_title, (eqb_empty_false _ title_nonempty).
  unfold mbind at 1, Task_bind, storageLocalGet. simpl.
  change (option_bind _ _ (lookup link) (storage w)) with (storage w ≫= (.!! link)).
  destruct (storage w ≫= (.!! link)) as [mc|] eqn:Hs; simpl; [|done].
  destruct (Z.ltb_spec (clock w - Cached.lastFetched mc) CACHE_EXPIRY) as [Hlt|Hge];
    [|done].
  exfalso. apply Hu. exists mc. split; [done|]. unfold CACHE_EXPIRY in Hlt. lia.
Qed.

End CacheFacts.

Section FinishFacts.

Context {A : Type}.
Variable P : Platform.

Lemma finish_runSync (t : Task A) w :
  finish P t w = finish P (runSync t w).1 (runSync t w).2.
Proof.
  revert w. induction t as [| |k IH|title k IH| | | |]; intros w; try done.
  - simpl. apply IH.
  - simpl. apply IH.
Qed.

Lemma finish_resume (t : Task A) w :
  finish P t w = finish P (resume P false t w).1 (resume P false t w).2.
Proof.
  destruct t; try apply finish_runSync; simpl; try apply finish_runSync.
Qed.

End FinishFacts.

Section CacheClaims.

Variable P : Platform.
Variables (el : MovieElement) (link title : string).
Hypothesis el_link : anchor el = Some link.
Hypothesis el_title : imgAlt el = Some title.
Hypothesis title_nonempty : title <> EmptyString.

Lemma awaitsFetch_fetchFresh handler :
  awaitsFetch (tryCatch (fetchFresh P title link) handler) link.
Proof. done. Qed.

(** C8: for an element with a link and a title: once the cache has been
    read, the resolver returns the cached anniversary, with no request,
    exactly when the entry for the link is less than [CACHE_EXPIRY] = 24 h
    old, and it is suspended on a fetch of the link exactly when it is not;
    an entry fetched 24 h and 1 ms ago is fetched again. *)
Theorem cache_entries_last_a_day w :
  CACHE_EXPIRY = 24 * 60 * 60 * 1000 /\
  (usable w link <->
   exists movieCache,
     resume P false (resolveMovie P el) w
     = (Return (Some (fromCache title link movieCache)), w)) /\
  (~ usable w link <-> awaitsFetch (resume P false (resolveMovie P el) w).1 link) /\
  (forall movieCache,
     storage w ≫= (.!! link) = Some movieCache ->
     clock w - Cached.lastFetched movieCache = 24 * 60 * 60 * 1000 + 1 ->
     awaitsFetch (resume P false (resolveMovie P el) w).1 link).
Proof.
  split; [done|].
  assert (~ usable w link -> awaitsFetch (resume P false (resolveMovie P el) w).1 link)
    as Hmiss.
  { intros Hu. rewrite (cache_miss P el link title el_link el_title title_nonempty w Hu).
    apply awaitsFetch_fetchFresh. }
  assert (usable w link ->
          exists movieCache,
            resume P false (resolveMovie P el) w
            = (Return (Some (fromCache title link movieCache)), w)) as Hhit.
  { intros (mc & Hs & Hv). exists mc. by apply cache_hit. }
  split; [|split].
  - split; [done|]. intros (mc & E).
    destruct (usable_dec link w) as [|Hu]; [done|].
    apply Hmiss in Hu. rewrite E in Hu. done.
  - split; [done|]. intros Ha Hu. destruct (Hhit Hu) as (mc & E).
    rewrite E in Ha. done.
  - intros mc Hs Hl. apply Hmiss. intros (mc' & Hs' & Hv).
    rewrite Hs in Hs'. injection Hs' as <-. lia.
Qed.

Lemma advanceClock_0 w : advanceClock 0 w = w.
Proof. destruct w. unfold advanceClock. simpl. f_equal. lia. Qed.

Lemma startAll_resolveMovie w : startAll [resolveMovie P el] w = ([resolveMovie P el], w).
Proof.
  unfold resolveMovie. by rewrite el_link, el_title, (eqb_empty_false _ title_nonempty).
Qed.

(** C4, amended: for an element with a link and a title: a cache read that
    fails makes the resolver log the error and resolve to null without any
    request; a cache write that fails after a successful fetch makes it log
    the error and resolve to null as well, the anniversary just computed
    being dropped and the cache left as it was.  In both cases the batch is
    fulfilled, not rejected. *)
Theorem storage_failure_drops_item w :
  (exists w',
     promiseAll P (settlements 0 [true]) [resolveMovie P el] w = (inr [None], w') /\
     storage w' = storage w /\
     trace w' = trace w ++ [ConsoleErrorEv title]) /\
  (forall releaseText releaseDate,
     ~ usable w link ->
     releaseDateText P (responseBody P link) = Some releaseText ->
     releaseText <> EmptyString ->
     parseDate P releaseText = Some releaseDate ->
     exists w',
       promiseAll P (settlements 0 [false; false; false; false; true])
                  [resolveMovie P el] w = (inr [None], w') /\
       storage w' = storage w /\
       trace w' = trace w ++ [NetworkRequest link; ConsoleErrorEv title]).
Proof.
  split.
  - unfold promiseAll. rewrite startAll_resolveMovie. simpl. rewrite advanceClock_0.
    unfold resolveMovie.
    rewrite el_link, el_title, (eqb_empty_false _ title_nonempty). simpl.
    eexists. split; [done|]. done.
  - intros releaseText releaseDate Hu Hx Hne Hd.
    unfold promiseAll. rewrite startAll_resolveMovie. simpl. rewrite advanceClock_0.
    rewrite (cache_miss P el link title el_link el_title title_nonempty w Hu).
    unfold fetchFresh, mbind, Task_bind. simpl.
    rewrite Hx, (eqb_empty_false _ Hne), Hd, ?advanceClock_0. simpl.
    rewrite ?advanceClock_0. simpl. rewrite ?advanceClock_0. simpl.
    eexists. split; [done|]. simpl. by rewrite <- app_assoc.
Qed.

(** A resolution through the fetch path, run without interruption: what
    it returns and what it leaves in the cache. *)
Lemma fresh_resolution w releaseText releaseDate :
  ~ usable w link ->
  releaseDateText P (responseBody P link) = Some releaseText ->
  releaseText <> EmptyString ->
  parseDate P releaseText = Some releaseDate ->
  let next := calculateNextAnniversary (LocalTZA P) (clock w) releaseDate in
  let written :=
    {| Cached.releaseDate := toISOString releaseDate;
       Cached.lastFetched := clock w;
       Cached.nextAnniversary := toISOString next |} in
  exists w',
    finish P (resolveMovie P el) w
    = (inr (Some (fromCache title link written)), w') /\
    storage w' ≫= (.!! link) = Some written /\
    clock w' = clock w.
Proof.
  intros Hu Hx Hne Hd. cbv zeta. rewrite finish_resume.
  rewrite (cache_miss P el link title el_link el_title title_nonempty w Hu).
  unfold fetchFresh, mbind, Task_bind. simpl.
  rewrite Hx, (eqb_empty_false _ Hne), Hd. unfold fromCache, toISOString. simpl.
  eexists. split; [reflexivity|]. simpl. split; [|reflexivity]. apply lookup_insert_eq.
Qed.

(** X10: as long as the entry a resolution wrote is in the cache and less
    than a day old, resolving the element again returns the same value and
    makes no request. *)
Lemma second_resolution_reuses_entry w w2 releaseText releaseDate :
  ~ usable w link ->
  releaseDateText P (responseBody P link) = Some releaseText ->
  releaseText <> EmptyString ->
  parseDate P releaseText = Some releaseDate ->
  storage w2 ≫= (.!! link) = storage (finish P (resolveMovie P el) w).2 ≫= (.!! link) ->
  clock w2 - clock w < 24 * 60 * 60 * 1000 ->
  exists m,
    (finish P (resolveMovie P el) w).1 = inr (Some m) /\
    resume P false (resolveMovie P el) w2 = (Return (Some m), w2).
Proof.
  intros Hu Hx Hne Hd Hs Hc.
  destruct (fresh_resolution w releaseText releaseDate Hu Hx Hne Hd)
    as (w' & E & Hw & _).
  rewrite E in *. simpl in Hs. rewrite Hw in Hs. eexists. split; [done|].
  by apply cache_hit.
Qed.

End CacheClaims.

(** C10: on a cache hit the anniversary returned is the one read back from
    the stored text, whatever the time of the hit; the stored text is the
    anniversary computed when the entry was written; so the anniversary of a
    film fetched on 24 May 2025 at 20:00 and resolved again fourteen hours
    later lies ten hours in the past. *)
Theorem cached_anniversary_not_recomputed :
  (forall P el link title w movieCache,
     anchor el = Some link -> imgAlt el = Some title -> title <> EmptyString ->
     storage w ≫= (.!! link) = Some movieCache ->
     clock w - Cached.lastFetched movieCache < 24 * 60 * 60 * 1000 ->
     exists m,
       resume P false (resolveMovie P el) w = (Return (Some m), w) /\
       nextAnniversary m = newDate (Cached.nextAnniversary movieCache)) /\
  (forall P el link title w releaseText releaseDate,
     anchor el = Some link -> imgAlt el = Some title -> title <> EmptyString ->
     ~ usable w link ->
     releaseDateText P (responseBody P link) = Some releaseText ->
     releaseText <> EmptyString ->
     parseDate P releaseText = Some releaseDate ->
     exists movieCache,
       storage (finish P (resolveMovie P el) w).2 ≫= (.!! link) = Some movieCache /\
       Cached.nextAnniversary movieCache
       = toISOString (calculateNextAnniversary (LocalTZA P) (clock w) releaseDate)) /\
  (let w0 := Demo.freshWorld (civil 2025 4 24 72000000) in
   let w1 := (finish Demo.platform (resolveMovie Demo.platform Demo.alien) w0).2 in
   let w2 := advanceClock 50400000 w1 in
   let m := {| title := "Alien"; releaseDate := civil 1979 4 25 0;
               nextAnniversary := civil 2025 4 25 0; url := "/film/alien/" |} in
   resume Demo.platform false (resolveMovie Demo.platform Demo.alien) w2
   = (Return (Some m), w2) /\
   clock w2 = civil 2025 4 25 36000000 /\
   clock w2 - clock w0 < 24 * 60 * 60 * 1000 /\
   nextAnniversary m < clock w2).
Proof.
  split; [|split].
  - intros P el link title w mc Hl Ht Hne Hs Hv. eexists. split; [by apply cache_hit|done].
  - intros P el link title w releaseText releaseDate Hl Ht Hne Hu Hx Hne' Hd.
    destruct (fresh_resolution P el link title Hl Ht Hne w releaseText releaseDate
                Hu Hx Hne' Hd) as (w' & E & Hw & _).
    rewrite E. simpl. eexists. split; [exact Hw|done].
  - cbv zeta. refine (conj _ (conj _ (conj _ _))); vm_compute; reflexivity.
Qed.

(** C6, evaluated on a race: Alien and Heat are resolved in one batch, both
    through the fetch path, and both read the cache document before either
    writes it.  Alien is resolved, to 25 May 2025, but the write of Heat
    replaces the document and Alien's entry is lost; resolving Alien again
    an hour later requests its page a second time and returns a different
    anniversary, 25 May 2026. *)
Theorem lost_update_refetches :
  let w0 := Demo.freshWorld (civil 2025 4 24 84600000) in
  let first := clickHandler Demo.platform [Demo.racing] [Demo.alien; Demo.heat] w0 in
  let w1 := advanceClock 3600000 first.2 in
  let second := clickHandler Demo.platform [] [Demo.alien] w1 in
  let alienOn next :=
    {| title := "Alien"; releaseDate := civil 1979 4 25 0;
       nextAnniversary := next; url := "/film/alien/" |} in
  let heat2025 :=
    {| title := "Heat"; releaseDate := civil 1995 11 15 0;
       nextAnniversary := civil 2025 11 15 0; url := "/film/heat/" |} in
  first.1 = Done {| panelMovies := [alienOn (civil 2025 4 25 0); heat2025];
                    settledResults := [Some (alienOn (civil 2025 4 25 0)); Some heat2025] |} /\
  storage first.2 ≫= (.!! "/film/alien/") = None /\
  clock w1 - clock w0 < 24 * 60 * 60 * 1000 /\
  second.1 = Done {| panelMovies := [alienOn (civil 2026 4 25 0)];
                     settledResults := [Some (alienOn (civil 2026 4 25 0))] |} /\
  trace second.2 = trace first.2 ++ [NetworkRequest "/film/alien/"; Progress 1 1].
Proof.
  cbv zeta. refine (conj _ (conj _ (conj _ (conj _ _)))); vm_compute; reflexivity.
Qed.

(** ** The statements at work on the catalogue *)

Lemma batches_and_progress_witness :
  exists run w',
    resolveAll Demo.platform 2 1000 [] [Demo.alien; Demo.heat; Demo.brazil]
               (Demo.freshWorld (civil 2025 0 1 0)) = (Done run, w') /\
    progressReports (trace w') = [(2, 3); (3, 3)]%nat.
Proof.
  destruct (batches_and_progress Demo.platform 2 1000 []
              [Demo.alien; Demo.heat; Demo.brazil] (Demo.freshWorld (civil 2025 0 1 0)))
    as (run & w' & batches & tr & E & _); [lia|].
  exists run, w'. split; [exact E|].
  apply (f_equal snd) in E. simpl in E. rewrite <- E. vm_compute. reflexivity.
Defined.

Lemma results_dropped_kept_sorted_witness :
  exists run w',
    clickHandler Demo.platform [] [Demo.heat; Demo.solaris; Demo.alien]
                 (Demo.freshWorld (civil 2025 0 1 0)) = (Done run, w') /\
    nextAnniversary <$> JSArray.sort compareAnniversaries (omap id (settledResults run))
    = nextAnniversary <$> panelMovies run.
Proof.
  destruct (results_dropped_kept_sorted Demo.platform []
              [Demo.heat; Demo.solaris; Demo.alien] (Demo.freshWorld (civil 2025 0 1 0)))
    as (run & w' & E & _ & _ & _ & _ & _ & Hperm).
  exists run, w'. split; [exact E|]. apply Hperm. reflexivity.
Defined.




Lemma storage_failure_drops_item_witness :
  exists w',
    promiseAll Demo.platform (settlements 0 [false; false; false; false; true])
               [resolveMovie Demo.platform Demo.alien]
               (Demo.freshWorld (civil 2025 0 1 0)) = (inr [None], w') /\
    storage w' = None /\
    trace w' = [NetworkRequest "/film/alien/"; ConsoleErrorEv "Alien"].
Proof.
  apply (storage_failure_drops_item Demo.platform Demo.alien "/film/alien/" "Alien"
           eq_refl eq_refl ltac:(discriminate) (Demo.freshWorld (civil 2025 0 1 0)))
    with (releaseText := "25 May 1979"%string) (releaseDate := civil 1979 4 25 0).
  - intros (mc & Hs & _). discriminate Hs.
  - reflexivity.
  - discriminate.
  - reflexivity.
Defined.

Lemma cache_entries_last_a_day_witness :
  let stale :=
    {| storage := Some {[ "/film/alien/"%string :=
                          {| Cached.releaseDate := toISOString (civil 1979 4 25 0);
                             Cached.lastFetched := civil 2025 0 1 0;
                             Cached.nextAnniversary := toISOString (civil 2025 4 25 0) |} ]};
       clock := civil 2025 0 2 1;
       trace := [] |} in
  awaitsFetch (resume Demo.platform false (resolveMovie Demo.platform Demo.alien) stale).1
              "/film/alien/".
Proof.
  intros stale.
  eapply (cache_entries_last_a_day Demo.platform Demo.alien "/film/alien/" "Alien"
            eq_refl eq_refl ltac:(discriminate) stale).
  - vm_compute. reflexivity.
  - vm_compute. reflexivity.
Defined.

Lemma cached_anniversary_not_recomputed_witness :
  let entry :=
    {| Cached.releaseDate := toISOString (civil 1979 4 25 0);
       Cached.lastFetched := civil 2025 4 24 72000000;
       Cached.nextAnniversary := toISOString (civil 2025 4 25 0) |} in
  let w :=
    {| storage := Some {[ "/film/alien/"%string := entry ]};
       clock := civil 2025 4 25 36000000;
       trace := [] |} in
  exists m,
    resume Demo.platform false (resolveMovie Demo.platform Demo.alien) w = (Return (Some m), w) /\
    nextAnniversary m = civil 2025 4 25 0.
Proof.
  intros entry w.
  destruct cached_anniversary_not_recomputed as [Hhit _].
  apply (Hhit Demo.platform Demo.alien "/film/alien/"%string "Alien"%string w entry).
  - reflexivity.
  - reflexivity.
  - discriminate.
  - vm_compute. reflexivity.
  - vm_compute. reflexivity.
Defined.

(** C4 as stated fails on Alien with an empty cache: when the cache read is
    rejected no request is made and nothing is shown; when the cache write
    is rejected after the page has been fetched and parsed, nothing is shown
    either. *)
Lemma storage_failure_counterexample :
  let w := Demo.freshWorld (civil 2025 0 1 0) in
  let readFails := clickHandler Demo.platform [settlements 0 [true]] [Demo.alien] w in
  let writeFails :=
    clickHandler Demo.platform [settlements 0 [false; false; false; false; true]]
                 [Demo.alien] w in
  readFails.1 = Done {| panelMovies := []; settledResults := [None] |} /\
  trace readFails.2 = [ConsoleErrorEv "Alien"; Progress 1 1] /\
  writeFails.1 = Done {| panelMovies := []; settledResults := [None] |} /\
  trace writeFails.2
  = [NetworkRequest "/film/alien/"; ConsoleErrorEv "Alien"; Progress 1 1].
Proof.
  cbv zeta. refine (conj _ (conj _ (conj _ _))); vm_compute; reflexivity.
Qed.

(** Five films, the page of the third cannot be fetched: four are shown,
    sorted, and progress is reported. *)
Example partial_failure_example :
  let run :=
    clickHandler Demo.platform [settlements 2 [false; true]]
                 [Demo.alien; Demo.heat; Demo.brazil; Demo.ran; Demo.jaws]
                 (Demo.freshWorld (civil 2025 0 1 0)) in
  (exists r, run.1 = Done r /\
             title <$> panelMovies r = ["Alien"; "Ran"; "Jaws"; "Heat"]%string) /\
  progressReports (trace run.2) = [(5, 5)]%nat.
Proof.
  cbv zeta. split; [|vm_compute; reflexivity].
  eexists. split; [reflexivity|]. vm_compute. reflexivity.
Qed.

(** The order of the panel does not depend on the order of settlement. *)
Example ordering_example :
  let w := Demo.freshWorld (civil 2025 0 1 0) in
  let inTurn := clickHandler Demo.platform [] [Demo.heat; Demo.brazil; Demo.ran] w in
  let lastFirst :=
    clickHandler Demo.platform
      [(fun j => {| who := j; rejected := false; elapsed := 7 |})
         <$> [2; 2; 2; 2; 2; 1; 1; 1; 1; 1; 0; 0; 0; 0; 0]%nat]
      [Demo.heat; Demo.brazil; Demo.ran] w in
  inTurn.1 = lastFirst.1 /\
  (exists r, inTurn.1 = Done r /\
     nextAnniversary <$> panelMovies r
     = [civil 2025 1 20 0; civil 2025 5 1 0; civil 2025 11 15 0]).
Proof.
  cbv zeta. split; [vm_compute; reflexivity|].
  eexists. split; [reflexivity|]. vm_compute. reflexivity.
Qed.

Lemma second_resolution_reuses_entry_witness :
  exists m,
    (finish Demo.platform (resolveMovie Demo.platform Demo.alien)
            (Demo.freshWorld (civil 2025 0 1 0))).1 = inr (Some m) /\
    resume Demo.platform false (resolveMovie Demo.platform Demo.alien)
           (advanceClock 3600000
              (finish Demo.platform (resolveMovie Demo.platform Demo.alien)
                      (Demo.freshWorld (civil 2025 0 1 0))).2)
    = (Return (Some m),
       advanceClock 3600000
         (finish Demo.platform (resolveMovie Demo.platform Demo.alien)
                 (Demo.freshWorld (civil 2025 0 1 0))).2).
Proof.
  apply (second_resolution_reuses_entry Demo.platform Demo.alien "/film/alien/" "Alien"
           eq_refl eq_refl ltac:(discriminate) (Demo.freshWorld (civil 2025 0 1 0))
           (advanceClock 3600000
              (finish Demo.platform (resolveMovie Demo.platform Demo.alien)
                      (Demo.freshWorld (civil 2025 0 1 0))).2)
           "25 May 1979" (civil 1979 4 25 0)).
  - intros (mc & Hs & _). discriminate Hs.
  - reflexivity.
  - discriminate.
  - reflexivity.
  - vm_compute. reflexivity.
  - vm_compute. reflexivity.
Defined.

(** * Further properties *)

(** ** Ordinal suffixes *)

Lemma below_100_cases (Q : Z -> Prop) :
  (forall k : nat, (k < 100)%nat -> Q (Z.of_nat k)) ->
  forall v, 0 <= v < 100 -> Q v.
Proof.
  intros H v Hv. rewrite <- (Z2Nat.id v) by lia. apply H. lia.
Qed.

(** X1: for a count that is not negative the suffix is the English one:
    st, nd, rd after a last digit of 1, 2, 3, except in the teens, and th
    otherwise. *)
Theorem getOrdinalSuffix_english n :
  0 <= n ->
  getOrdinalSuffix n =
    if (n mod 10 =? 1) && negb (n mod 100 =? 11) then "st"%string
    else if (n mod 10 =? 2) && negb (n mod 100 =? 12) then "nd"%string
    else if (n mod 10 =? 3) && negb (n mod 100 =? 13) then "rd"%string
    else "th"%string.
Proof.
  intros Hn. unfold getOrdinalSuffix.
  rewrite (Z.rem_mod_nonneg n 100) by lia.
  replace (n mod 10) with ((n mod 100) mod 10)
    by (Z.to_euclidean_division_equations; lia).
  pose proof (Z.mod_pos_bound n 100 ltac:(lia)) as Hv.
  revert Hv. generalize (n mod 100). clear. intros v Hv. revert v Hv.
  apply below_100_cases. intros k Hk.
  do 100 (destruct k as [|k]; [vm_compute; reflexivity|]). lia.
Qed.

Lemma getOrdinalSuffix_english_witness : getOrdinalSuffix 22 = "nd"%string.
Proof. apply (getOrdinalSuffix_english 22). lia. Defined.

Lemma suffixAt_nonpos i : i <= 0 -> suffixAt i = Some "th"%string \/ suffixAt i = None.
Proof. destruct i; simpl; [auto|lia|auto]. Qed.

(** X2: a negative count, as a film not yet released gets, always takes
    th. *)
Theorem getOrdinalSuffix_negative n : n < 0 -> getOrdinalSuffix n = "th"%string.
Proof.
  intros Hn. unfold getOrdinalSuffix.
  assert (Z.rem n 100 <= 0) as Hv by (apply Z.rem_nonpos; lia).
  assert (Z.rem (Z.rem n 100 - 20) 10 <= 0) as Hi by (apply Z.rem_nonpos; lia).
  destruct (suffixAt_nonpos _ Hi) as [->| ->]; [done|].
  by destruct (suffixAt_nonpos _ Hv) as [->| ->].
Qed.

Lemma getOrdinalSuffix_negative_witness : getOrdinalSuffix (-1) = "th"%string.
Proof. apply (getOrdinalSuffix_negative (-1)). lia. Defined.

(** ** The anniversary and its count *)

Lemma MakeDay_fields t :
  MakeDay (YearFromTime t) (MonthFromTime t) (DateFromTime t) = Day t.
Proof.
  pose proof (MonthFromTime_range t) as Hm.
  unfold MakeDay. rewrite (Z.div_small _ 12), (Z.mod_small _ 12), Z.add_0_r by lia.
  unfold DateFromTime, DayWithinYear, InLeapYear. lia.
Qed.

Section CalculatorsFurther.

Variable zone : TimeZone.
Hypothesis zone_keepsDay : keepsDay zone.
Hypothesis zone_yearsInOrder : yearsInOrder zone.

(** Setting the year a date already has changes nothing, unless the date
    lies in the second pass of a repeated hour. *)
Lemma setFullYear_same_year t :
  firstPass zone t -> setFullYear zone t (getFullYear zone t) = t.
Proof.
  intros Ht. unfold setFullYear, getFullYear. by rewrite MakeDay_fields, MakeDate_Day.
Qed.

(** [setFullYear] looks at the month, the day and the time of day only. *)
Lemma setFullYear_fields a b year :
  getMonth zone a = getMonth zone b ->
  getDate zone a = getDate zone b ->
  TimeWithinDay (LocalTime zone a) = TimeWithinDay (LocalTime zone b) ->
  setFullYear zone a year = setFullYear zone b year.
Proof.
  unfold setFullYear, getMonth, getDate. by intros -> -> ->.
Qed.

(** Moving a date into a year and on into another is moving it into the
    other at once, when its local time exists in the first year. *)
Lemma setFullYear_twice D y y' :
  ~ isLeapDay zone D ->
  unskipped zone (movedInto zone D y) ->
  setFullYear zone (setFullYear zone D y) y' = setFullYear zone D y'.
Proof.
  intros Hd Hu.
  destruct (month_date_setFullYear zone zone_keepsDay D y) as [Hm Hdt]; [tauto|].
  apply setFullYear_fields; [done|done|].
  rewrite setFullYear_moved, Hu. apply (moved_fields (LocalTime zone D) y).
Qed.

Lemma getFullYear_le a b : a <= b -> getFullYear zone a <= getFullYear zone b.
Proof.
  intros Hab. destruct (Z.le_gt_cases (getFullYear zone a) (getFullYear zone b)); [done|].
  pose proof (zone_yearsInOrder b a). lia.
Qed.

Lemma getFullYear_nextAnniversary today D :
  getFullYear zone (calculateNextAnniversary zone today D)
  = if setFullYear zone D (getFullYear zone today) <? today
    then getFullYear zone today + 1 else getFullYear zone today.
Proof.
  unfold calculateNextAnniversary.
  destruct (_ <? today); by apply getFullYear_setFullYear.
Qed.

(** X3: in a zone that skips no midnight and never sets the year back, and
    for a release date that does not lie in the second pass of a repeated
    hour, the count printed with the anniversary is the difference between
    the current year and the year of release, or one more; it is at least 1
    exactly for a film released before now, so a film still to be released
    is announced with a count of 0 or less. *)
Theorem anniversary_count today D :
  firstPass zone D ->
  let n := yearsSinceRelease zone (calculateNextAnniversary zone today D) D in
  (n = getFullYear zone today - getFullYear zone D \/
   n = getFullYear zone today - getFullYear zone D + 1) /\
  (1 <= n <-> D < today).
Proof.
  intros HD. cbv zeta. unfold yearsSinceRelease. rewrite getFullYear_nextAnniversary.
  destruct (Z.ltb_spec (setFullYear zone D (getFullYear zone today)) today) as [Hlt|Hge].
  - split; [right; lia|].
    destruct (Z.lt_trichotomy (getFullYear zone D) (getFullYear zone today)) as [Hy|[Hy|Hy]].
    + pose proof (zone_yearsInOrder D today Hy). lia.
    + rewrite <- Hy, setFullYear_same_year in Hlt by done. lia.
    + pose proof (zone_yearsInOrder today D Hy). lia.
  - split; [left; lia|].
    destruct (Z.lt_trichotomy (getFullYear zone D) (getFullYear zone today)) as [Hy|[Hy|Hy]].
    + pose proof (zone_yearsInOrder D today Hy). lia.
    + rewrite <- Hy, setFullYear_same_year in Hge by done. lia.
    + pose proof (zone_yearsInOrder today D Hy). lia.
Qed.

Lemma nextAnniversary_least today D year :
  ~ isLeapDay zone D ->
  unskipped zone (movedInto zone D (getFullYear zone today)) ->
  today <= setFullYear zone D year ->
  calculateNextAnniversary zone today D <= setFullYear zone D year.
Proof.
  intros Hd Hu Hy.
  pose proof (getFullYear_le _ _ Hy) as Hyear.
  rewrite getFullYear_setFullYear in Hyear by done.
  unfold calculateNextAnniversary.
  destruct (Z.ltb_spec (setFullYear zone D (getFullYear zone today)) today) as [Hlt|Hge].
  - rewrite setFullYear_twice by done.
    destruct (Z.eq_dec year (getFullYear zone today)) as [->|Hne]; [lia|].
    destruct (Z.eq_dec year (getFullYear zone today + 1)) as [->|Hne']; [lia|].
    apply Z.lt_le_incl, zone_yearsInOrder. rewrite !getFullYear_setFullYear by done. lia.
  - destruct (Z.eq_dec year (getFullYear zone today)) as [->|Hne]; [lia|].
    apply Z.lt_le_incl, zone_yearsInOrder. rewrite !getFullYear_setFullYear by done. lia.
Qed.

Lemma nextAnniversary_date today D :
  ~ isLeapDay zone D ->
  unskipped zone (movedInto zone D (getFullYear zone today)) ->
  calculateNextAnniversary zone today D
  = setFullYear zone D (getFullYear zone (calculateNextAnniversary zone today D)).
Proof.
  intros Hd Hu. rewrite getFullYear_nextAnniversary. unfold calculateNextAnniversary.
  destruct (_ <? today); [|done]. by rewrite setFullYear_twice.
Qed.

(** X4: in a zone that skips no midnight and never sets the year back, for
    a release on any day but a 29 February whose local time of day exists
    on its anniversary of the current year, the date returned is the
    release date moved into some year, and it is the earliest such date, in
    any year, that is not before now. *)
Theorem nextAnniversary_is_next today D :
  ~ isLeapDay zone D ->
  unskipped zone (movedInto zone D (getFullYear zone today)) ->
  let next := calculateNextAnniversary zone today D in
  next = setFullYear zone D (getFullYear zone next) /\
  today <= next /\
  forall year, today <= setFullYear zone D year -> next <= setFullYear zone D year.
Proof.
  intros Hd Hu next. split; [by apply nextAnniversary_date|].
  split; [by apply nextAnniversary_not_before|].
  intros year. by apply nextAnniversary_least.
Qed.

Lemma milestone_years today D :
  let r := calculateNextMilestoneAnniversary zone today D in
  (5 | years r) /\
  getFullYear zone (date r) = getFullYear zone D + years r /\
  today <= date r /\
  (forall k, (5 | k) -> today <= setFullYear zone D (getFullYear zone D + k) -> years r <= k).
Proof.
  cbv zeta. unfold calculateNextMilestoneAnniversary.
  set (ys := getFullYear zone today - getFullYear zone D).
  destruct (ceilDiv_5 ys) as [[q Hq] Hm]. cbv zeta in Hm.
  set (m := ceilDiv ys 5 * 5) in *.
  assert (forall k, (5 | k) -> k < m ->
            setFullYear zone D (getFullYear zone D + k) < today) as Hearly.
  { intros k [j Hj] Hk. apply zone_yearsInOrder.
    rewrite getFullYear_setFullYear by done. lia. }
  destruct (Z.ltb_spec (setFullYear zone D (getFullYear zone D + m)) today) as [Hlt|Hge];
    simpl; rewrite getFullYear_setFullYear by done.
  - split; [exists (q + 1); lia|]. split; [lia|]. split.
    + apply Z.lt_le_incl, zone_yearsInOrder. rewrite getFullYear_setFullYear by done. lia.
    + intros k [j Hj] Hk. destruct (Z.lt_trichotomy k m) as [Hc|[->|Hc]]; [| |lia].
      * specialize (Hearly k (ltac:(by exists j)) Hc). lia.
      * lia.
  - split; [by exists q|]. split; [done|]. split; [done|].
    intros k Hk Hle. destruct (Z.lt_ge_cases k m) as [Hc|Hc]; [|lia].
    specialize (Hearly k Hk Hc). lia.
Qed.

Lemma milestone_date today D :
  ~ isLeapDay zone D ->
  (forall year, unskipped zone (movedInto zone D year)) ->
  let r := calculateNextMilestoneAnniversary zone today D in
  date r = setFullYear zone D (getFullYear zone D + years r).
Proof.
  intros Hd Hu. cbv zeta. unfold calculateNextMilestoneAnniversary.
  destruct (_ <? today); simpl; [|done]. rewrite setFullYear_twice by done.
  f_equal. lia.
Qed.

(** X5: in a zone that skips no midnight and never sets the year back, for
    a release on any day but a 29 February whose local time of day exists
    on its anniversary of every year, the milestone shown in the tooltip is
    never before the anniversary shown above it, and the two are the same
    date exactly when the count of the anniversary is a multiple of 5. *)
Theorem milestone_after_anniversary today D :
  ~ isLeapDay zone D ->
  (forall year, unskipped zone (movedInto zone D year)) ->
  let next := calculateNextAnniversary zone today D in
  let milestone := calculateNextMilestoneAnniversary zone today D in
  next <= date milestone /\
  (next = date milestone <-> (5 | yearsSinceRelease zone next D)) /\
  (next = date milestone -> years milestone = yearsSinceRelease zone next D).
Proof.
  intros Hd Hu. cbv zeta.
  destruct (milestone_years today D) as (H5 & Hyear & Hge & Hleast). cbv zeta in *.
  pose proof (milestone_date today D Hd Hu) as Hdate. cbv zeta in Hdate.
  pose proof (nextAnniversary_date today D Hd (Hu _)) as Hnext.
  pose proof (nextAnniversary_not_before zone zone_keepsDay zone_yearsInOrder today D)
    as Hnb.
  assert (calculateNextAnniversary zone today D
          <= date (calculateNextMilestoneAnniversary zone today D)) as Hle.
  { rewrite Hdate. apply nextAnniversary_least; [done|done|]. by rewrite <- Hdate. }
  split; [done|]. unfold yearsSinceRelease.
  set (next := calculateNextAnniversary zone today D) in *.
  set (ml := calculateNextMilestoneAnniversary zone today D) in *.
  assert (next = date ml -> years ml = getFullYear zone next - getFullYear zone D) as Hsame.
  { intros E. rewrite E. lia. }
  split; [|done]. split.
  - intros E. rewrite <- (Hsame E). done.
  - intros Hdiv.
    assert (years ml <= getFullYear zone next - getFullYear zone D) as Hk.
    { apply Hleast; [done|].
      replace (getFullYear zone D + (getFullYear zone next - getFullYear zone D))
        with (getFullYear zone next) by lia.
      by rewrite <- Hnext. }
    pose proof (getFullYear_le _ _ Hle) as Hy.
    rewrite Hnext, Hdate. f_equal. lia.
Qed.

End CalculatorsFurther.

(** The release of the catalogue's example in Eastern Time: midnight of
    1 April 1980. *)
Lemma eastern_release_moved year :
  unskipped Demo.easternTime (movedInto Demo.easternTime (civil 1980 3 1 18000000) year).
Proof.
  apply easternTime_midnight. unfold movedInto.
  rewrite TimeWithinDay_MakeDate by apply TimeWithinDay_range.
  vm_compute. reflexivity.
Qed.

Lemma anniversary_count_witness :
  1 <= yearsSinceRelease Demo.easternTime
         (calculateNextAnniversary Demo.easternTime (civil 2025 3 1 16200000)
                                   (civil 1980 3 1 18000000))
         (civil 1980 3 1 18000000).
Proof.
  destruct (anniversary_count Demo.easternTime easternTime_keepsDay
              easternTime_yearsInOrder (civil 2025 3 1 16200000) (civil 1980 3 1 18000000))
    as [_ Hcount].
  - vm_compute. reflexivity.
  - apply Hcount. vm_compute. reflexivity.
Defined.

Lemma nextAnniversary_is_next_witness :
  civil 2025 3 1 16200000
  <= calculateNextAnniversary Demo.easternTime (civil 2025 3 1 16200000)
                              (civil 1980 3 1 18000000).
Proof.
  destruct (nextAnniversary_is_next Demo.easternTime easternTime_keepsDay
              easternTime_yearsInOrder (civil 2025 3 1 16200000) (civil 1980 3 1 18000000))
    as (_ & Hnot_before & _).
  - vm_compute. intros [H _]. discriminate H.
  - apply eastern_release_moved.
  - exact Hnot_before.
Defined.

Lemma milestone_after_anniversary_witness :
  calculateNextAnniversary Demo.easternTime (civil 2025 3 1 16200000)
                           (civil 1980 3 1 18000000)
  <= date (calculateNextMilestoneAnniversary Demo.easternTime (civil 2025 3 1 16200000)
             (civil 1980 3 1 18000000)).
Proof.
  destruct (milestone_after_anniversary Demo.easternTime easternTime_keepsDay
              easternTime_yearsInOrder (civil 2025 3 1 16200000) (civil 1980 3 1 18000000))
    as (Hle & _ & _).
  - vm_compute. intros [H _]. discriminate H.
  - apply eastern_release_moved.
  - exact Hle.
Defined.

(** ** Strings *)

Section StringFacts.

Import JSString.

Lemma append_cons x (a b : string) : String x a +:+ b = String x (a +:+ b).
Proof. reflexivity. Qed.

Lemma append_nil (b : string) : EmptyString +:+ b = b.
Proof. reflexivity. Qed.

Lemma append_assoc (a b c : string) : (a +:+ b) +:+ c = a +:+ (b +:+ c).
Proof.
  induction a as [|x a IH]; [done|]. by rewrite !append_cons, IH.
Qed.

Lemma length_append (a b : string) :
  String.length (a +:+ b) = (String.length a + String.length b)%nat.
Proof.
  induction a as [|x a IH]; [done|]. rewrite append_cons. simpl. by rewrite IH.
Qed.

Lemma allChars_app ok a b : allChars ok (a +:+ b) = allChars ok a && allChars ok b.
Proof.
  induction a as [|x a IH]; [done|]. rewrite append_cons. simpl.
  by rewrite IH, andb_assoc.
Qed.

Lemma allChars_impl (ok ok' : ascii -> bool) s :
  (forall c, ok c = true -> ok' c = true) -> allChars ok s = true -> allChars ok' s = true.
Proof.
  intros Hi. induction s as [|x s IH]; simpl; [done|].
  intros [Hx Hs]%andb_true_iff. rewrite (Hi _ Hx), IH; done.
Qed.

Lemma removeEach_app inClass a b :
  removeEach inClass (a +:+ b) = removeEach inClass a +:+ removeEach inClass b.
Proof.
  induction a as [|x a IH]; [done|]. rewrite append_cons. simpl.
  destruct (inClass x); by rewrite IH.
Qed.

Lemma removeEach_none inClass s :
  allChars (fun c => negb (inClass c)) s = true -> removeEach inClass s = s.
Proof.
  induction s as [|x s IH]; simpl; [done|].
  intros [Hx Hs]%andb_true_iff. apply negb_true_iff in Hx. rewrite Hx, IH; done.
Qed.

Lemma beforeFirst_app c a b :
  allChars (fun x => negb (Ascii.eqb x c)) a = true ->
  beforeFirst c (a +:+ String c b) = a.
Proof.
  induction a as [|x a IH].
  - intros _. rewrite append_nil. simpl. by rewrite Ascii.eqb_refl.
  - rewrite append_cons. simpl. intros [Hx Hs]%andb_true_iff.
    apply negb_true_iff in Hx. rewrite Hx, IH; done.
Qed.

Lemma length_replaceEach inClass by_ s :
  String.length (replaceEach inClass by_ s) = String.length s.
Proof. induction s as [|x s IH]; simpl; [done|]. by rewrite IH. Qed.

Lemma allChars_replaceEach ok by_ s :
  allChars (fun c => ok c || Ascii.eqb c by_)
           (replaceEach (fun c => negb (ok c)) by_ s) = true.
Proof.
  induction s as [|x s IH]; simpl; [done|].
  rewrite IH, andb_true_r. destruct (ok x) eqn:Hx; simpl.
  - by rewrite Hx.
  - by rewrite Ascii.eqb_refl, orb_true_r.
Qed.

End StringFacts.

(** X6: the name of the exported file is as long as the title plus the 16
    characters of its ending; in front of the ending it holds nothing but
    ASCII letters, digits and underscores, so the name has no separator of
    directories, no space and no dot but that of the ending, whatever the
    title. *)
Theorem exportFileName_safe title :
  String.length (exportFileName title) = (String.length title + 16)%nat /\
  exists stem,
    exportFileName title = stem +:+ "_anniversary.ics" /\
    String.length stem = String.length title /\
    JSString.allChars (fun c => JSString.isAlphanumeric c || Ascii.eqb c "_") stem = true.
Proof.
  unfold exportFileName. split; [by rewrite length_append, length_replaceEach|].
  eexists. split; [done|]. split; [apply length_replaceEach|].
  apply allChars_replaceEach.
Qed.

(** ** The texts of dates *)

Section ISOFacts.

Import JSString ISO8601.

Lemma digit_isDigit n : isDigit (digit n) = true.
Proof.
  unfold digit.
  repeat match goal with
         | |- context [match ?x with _ => _ end] => destruct x
         end; reflexivity.
Qed.

Lemma digitValue_digit n : 0 <= n <= 9 -> digitValue (digit n) = Some n.
Proof.
  intros Hn. rewrite <- (Z2Nat.id n) by lia.
  assert (Z.to_nat n < 10)%nat as Hk by lia. revert Hk. generalize (Z.to_nat n).
  intros k Hk. do 10 (destruct k as [|k]; [reflexivity|]). lia.
Qed.

Lemma isDigit_not c x : isDigit x = false -> isDigit c = true -> Ascii.eqb c x = false.
Proof.
  intros Hx Hc. destruct (Ascii.eqb_spec c x) as [->|]; [congruence|done].
Qed.

Lemma digits_not x s :
  isDigit x = false -> allChars isDigit s = true ->
  allChars (fun c => negb (Ascii.eqb c x)) s = true.
Proof.
  intros Hx. apply allChars_impl. intros c Hc. by rewrite (isDigit_not c x).
Qed.

Lemma pad2_digits n : allChars isDigit (pad2 n) = true.
Proof. unfold pad2. simpl. by rewrite !digit_isDigit. Qed.

Lemma pad3_digits n : allChars isDigit (pad3 n) = true.
Proof. unfold pad3. cbn [allChars]. by rewrite digit_isDigit, pad2_digits. Qed.

Lemma pad4_digits n : allChars isDigit (pad4 n) = true.
Proof. unfold pad4. cbn [allChars]. by rewrite digit_isDigit, pad3_digits. Qed.

Lemma yearText_in_range y : 0 <= y <= 9999 -> yearText y = pad4 y.
Proof.
  intros Hy. unfold yearText.
  destruct (Z.leb_spec 0 y); [|lia]. destruct (Z.leb_spec y 9999); [done|lia].
Qed.

(** Removing a class of characters that are no digits from a text made of
    digits and of separators. *)
Lemma removeEach_digits inClass s :
  (forall c, isDigit c = true -> inClass c = false) ->
  allChars isDigit s = true -> removeEach inClass s = s.
Proof.
  intros Hc Hs. apply removeEach_none. revert Hs. apply allChars_impl.
  intros c Hd. by rewrite Hc.
Qed.

Lemma not_dash_colon c : isDigit c = true -> Ascii.eqb c "-" || Ascii.eqb c ":" = false.
Proof. intros Hc. by rewrite !isDigit_not. Qed.

Lemma not_dash c : isDigit c = true -> Ascii.eqb c "-" = false.
Proof. intros Hc. by rewrite !isDigit_not. Qed.

Lemma isoText_parts t :
  0 <= YearFromTime t <= 9999 ->
  isoText t =
    pad4 (YearFromTime t) +:+ "-" +:+ pad2 (MonthFromTime t + 1) +:+ "-"
    +:+ pad2 (DateFromTime t) +:+ "T" +:+ pad2 (HourFromTime t) +:+ ":"
    +:+ pad2 (MinFromTime t) +:+ ":" +:+ pad2 (SecFromTime t) +:+ "."
    +:+ pad3 (msFromTime t) +:+ "Z".
Proof.
  intros Hy. unfold isoText, dateText, timeText. rewrite yearText_in_range by done.
  by rewrite !append_assoc.
Qed.

Lemma removeEach_one inClass c :
  removeEach inClass (String c EmptyString)
  = if inClass c then EmptyString else String c EmptyString.
Proof. reflexivity. Qed.

End ISOFacts.

(** X7: for a date in the years 0 to 9999 the stamp of the export is the
    UTC date and time in the basic form YYYYMMDDTHHMMSSZ, sixteen
    characters, the milliseconds dropped. *)
Theorem formatICalDate_basic t :
  0 <= YearFromTime t <= 9999 ->
  formatICalDate t =
    ISO8601.pad4 (YearFromTime t) +:+ ISO8601.pad2 (MonthFromTime t + 1)
    +:+ ISO8601.pad2 (DateFromTime t) +:+ "T"
    +:+ ISO8601.pad2 (ISO8601.HourFromTime t) +:+ ISO8601.pad2 (ISO8601.MinFromTime t)
    +:+ ISO8601.pad2 (ISO8601.SecFromTime t) +:+ "Z".
Proof.
  intros Hy. unfold formatICalDate. rewrite isoText_parts by done.
  rewrite !removeEach_app.
  rewrite !(removeEach_digits _ (ISO8601.pad2 _)) by (apply not_dash_colon || apply pad2_digits).
  rewrite !(removeEach_digits _ (ISO8601.pad3 _)) by (apply not_dash_colon || apply pad3_digits).
  rewrite !(removeEach_digits _ (ISO8601.pad4 _)) by (apply not_dash_colon || apply pad4_digits).
  rewrite !removeEach_one. cbn [Ascii.eqb Bool.eqb orb andb].
  rewrite !append_nil.
  set (rest := ISO8601.pad3 _ +:+ "Z").
  match goal with
  | |- JSString.beforeFirst _ (?y +:+ ?m +:+ ?d +:+ "T" +:+ ?h +:+ ?mi +:+ ?sec +:+ "." +:+ rest) +:+ _ = _ =>
    replace (y +:+ m +:+ d +:+ "T" +:+ h +:+ mi +:+ sec +:+ "." +:+ rest)
      with ((y +:+ m +:+ d +:+ "T" +:+ h +:+ mi +:+ sec) +:+ String "." rest)
      by (rewrite !append_assoc; reflexivity)
  end.
  rewrite beforeFirst_app.
  - rewrite !append_assoc. reflexivity.
  - rewrite !allChars_app.
    rewrite !(digits_not "." (ISO8601.pad2 _)), (digits_not "." (ISO8601.pad4 _))
      by (reflexivity || apply pad2_digits || apply pad4_digits).
    reflexivity.
Qed.

Lemma formatICalDate_basic_witness :
  formatICalDate (civil 2025 5 15 36000123) = "20250615T100000Z"%string.
Proof.
  rewrite (formatICalDate_basic (civil 2025 5 15 36000123)); [vm_compute; reflexivity|].
  vm_compute. split; discriminate.
Defined.

Section ExportDay.

Import JSString ISO8601.

Lemma eventDay_utc t :
  0 <= YearFromTime t <= 9999 -> eventDay t = dayDigits (Day t).
Proof.
  intros Hy. unfold eventDay, dayDigits. rewrite isoText_parts by done.
  destruct (fields_of_day (Day t * msPerDay) t) as (-> & -> & ->).
  { unfold Day, msPerDay. Z.to_euclidean_division_equations. lia. }
  set (rest := pad2 (HourFromTime t) +:+ _).
  match goal with
  | |- removeEach _ (beforeFirst _ (?y +:+ ?s1 +:+ ?m +:+ ?s2 +:+ ?d +:+ "T" +:+ rest)) = _ =>
    replace (y +:+ s1 +:+ m +:+ s2 +:+ d +:+ "T" +:+ rest)
      with ((y +:+ s1 +:+ m +:+ s2 +:+ d) +:+ String "T" rest)
      by (rewrite !append_assoc; reflexivity)
  end.
  rewrite beforeFirst_app.
  - rewrite !removeEach_app.
    rewrite !(removeEach_digits _ (pad2 _)), (removeEach_digits _ (pad4 _))
      by (apply not_dash || apply pad2_digits || apply pad4_digits).
    rewrite !removeEach_one. cbn [Ascii.eqb Bool.eqb]. by rewrite !append_nil.
  - rewrite !allChars_app.
    rewrite !(digits_not "T" (pad2 _)), (digits_not "T" (pad4 _))
      by (reflexivity || apply pad2_digits || apply pad4_digits).
    reflexivity.
Qed.

End ExportDay.

(** X8: the all-day event of the export is dated by the UTC calendar date
    of the anniversary instant, while the page shows its local date.  With
    [k] the whole days between the two, found from the local time of day of
    the anniversary and the offset in force at it, the exported digits are
    those of the local date [k] days on, and those of the local date itself
    when [k] is 0; [k] is negative, the export a day early, exactly when
    the local time of day is less than the offset, as it is at a local
    midnight east of Greenwich. *)
Theorem export_names_utc_day zone anniversaryDate :
  let localTime := LocalTime zone anniversaryDate in
  let k := (TimeWithinDay localTime - offsetAt zone anniversaryDate) / msPerDay in
  0 <= YearFromTime anniversaryDate <= 9999 ->
  eventDay anniversaryDate = dayDigits (Day localTime + k) /\
  (k = 0 -> eventDay anniversaryDate = localDay zone anniversaryDate) /\
  (k < 0 <-> TimeWithinDay localTime < offsetAt zone anniversaryDate) /\
  (k = 0 <-> 0 <= TimeWithinDay localTime - offsetAt zone anniversaryDate < msPerDay).
Proof.
  intros localTime k Hy.
  assert (Day anniversaryDate = Day localTime + k) as Hday.
  { unfold k, localTime, LocalTime, Day, TimeWithinDay, msPerDay.
    Z.to_euclidean_division_equations. lia. }
  split; [by rewrite eventDay_utc, Hday|].
  split; [intros Hk; unfold localDay; fold localTime; by rewrite eventDay_utc, Hday, Hk, Z.add_0_r|].
  unfold k, msPerDay. split; split; Z.to_euclidean_division_equations; lia.
Qed.

Lemma export_names_utc_day_witness :
  eventDay (civil 2025 5 14 82800000) = dayDigits (Day (civil 2025 5 15 0) + -1).
Proof.
  refine (proj1 (export_names_utc_day (fixedOffset 3600000) (civil 2025 5 14 82800000) _)).
  vm_compute. split; discriminate.
Defined.

(** ** Reading back what [toISOString] wrote *)

Section RoundTrip.

Import JSString ISO8601.

Lemma digits_step k acc n rest :
  0 <= n <= 9 ->
  digits (S k) acc (String (digit n) rest) = digits k (10 * acc + n) rest.
Proof. intros Hn. cbn [digits]. by rewrite digitValue_digit. Qed.

Ltac digit_bounds :=
  match goal with
  | |- 0 <= _ mod 10 <= 9 => pose proof (Z.mod_pos_bound) as Hmod; 
      match goal with |- 0 <= ?a mod 10 <= 9 => specialize (Hmod a 10); lia end
  end.

Lemma digits_pad2 acc n rest :
  0 <= n < 100 -> digits 2 acc (pad2 n +:+ rest) = Some (100 * acc + n, rest).
Proof.
  intros Hn. unfold pad2. rewrite !append_cons, append_nil.
  rewrite !digits_step by digit_bounds. cbn [digits]. do 2 f_equal.
  Z.to_euclidean_division_equations. lia.
Qed.

Lemma digits_pad3 acc n rest :
  0 <= n < 1000 -> digits 3 acc (pad3 n +:+ rest) = Some (1000 * acc + n, rest).
Proof.
  intros Hn. unfold pad3, pad2. rewrite !append_cons, append_nil.
  rewrite !digits_step by digit_bounds. cbn [digits]. do 2 f_equal.
  Z.to_euclidean_division_equations. lia.
Qed.

Lemma digits_pad4 acc n rest :
  0 <= n < 10000 -> digits 4 acc (pad4 n +:+ rest) = Some (10000 * acc + n, rest).
Proof.
  intros Hn. unfold pad4, pad3, pad2. rewrite !append_cons, append_nil.
  rewrite !digits_step by digit_bounds. cbn [digits]. do 2 f_equal.
  Z.to_euclidean_division_equations. lia.
Qed.

Lemma digits_pad6 acc n rest :
  0 <= n < 1000000 -> digits 6 acc (pad6 n +:+ rest) = Some (1000000 * acc + n, rest).
Proof.
  intros Hn. unfold pad6, pad4, pad3, pad2. rewrite !append_cons, append_nil.
  rewrite !digits_step by digit_bounds. cbn [digits]. do 2 f_equal.
  Z.to_euclidean_division_equations. lia.
Qed.

Lemma year_yearText y rest :
  -999999 <= y <= 999999 -> year (yearText y +:+ rest) = Some (y, rest).
Proof.
  intros Hy. unfold yearText.
  destruct (Z.leb_spec 0 y); cbn [andb].
  - destruct (Z.leb_spec y 9999).
    + assert (year (pad4 y +:+ rest) = digits 4 0 (pad4 y +:+ rest)) as ->.
      { unfold pad4. rewrite append_cons. unfold year.
        by rewrite !(isDigit_not (digit _)) by (reflexivity || apply digit_isDigit). }
      rewrite digits_pad4 by lia. by rewrite Z.mul_0_r, Z.add_0_l.
    + destruct (Z.ltb_spec y 0); [lia|]. rewrite append_cons. unfold year.
      cbn [Ascii.eqb Bool.eqb andb]. rewrite digits_pad6 by lia.
      rewrite Z.mul_0_r, Z.add_0_l, Z.abs_eq by lia. done.
  - destruct (Z.ltb_spec y 0); [|lia]. rewrite append_cons. unfold year.
    cbn [Ascii.eqb Bool.eqb andb]. rewrite digits_pad6 by lia.
    rewrite Z.mul_0_r, Z.add_0_l. cbn [mbind option_bind].
    destruct (Z.eqb_spec (Z.abs y) 0); [lia|].
    rewrite Z.abs_neq, Z.opp_involutive by lia. done.
Qed.

Lemma expect_literal c rest : expect c (String c EmptyString +:+ rest) = Some rest.
Proof. rewrite append_cons, append_nil. unfold expect. by rewrite Ascii.eqb_refl. Qed.

Lemma time_fields t :
  0 <= HourFromTime t <= 23 /\ 0 <= MinFromTime t <= 59 /\
  0 <= SecFromTime t <= 59 /\ 0 <= msFromTime t <= 999 /\
  HourFromTime t * 3600000 + MinFromTime t * 60000 + SecFromTime t * 1000 + msFromTime t
  = TimeWithinDay t.
Proof.
  unfold HourFromTime, MinFromTime, SecFromTime, msFromTime, TimeWithinDay, msPerDay.
  Z.to_euclidean_division_equations. lia.
Qed.

Lemma YearFromTime_bound t :
  -8640000000000000 <= t <= 8640000000000000 -> -999999 <= YearFromTime t <= 999999.
Proof.
  intros Ht. unfold YearFromTime, Day, msPerDay.
  repeat match goal with |- context [if ?b then _ else _] => destruct b end;
    Z.to_euclidean_division_equations; lia.
Qed.

Lemma parse_isoText t :
  -999999 <= YearFromTime t <= 999999 -> parse (isoText t) = Some t.
Proof.
  intros Hy.
  destruct (time_fields t) as (Hh & Hmi & Hs & Hms & Htime).
  pose proof (MonthFromTime_range t) as Hmo. pose proof (DateFromTime_range t) as Hd.
  unfold isoText, dateText, timeText, parse. rewrite !append_assoc.
  rewrite year_yearText by done. cbn [mbind option_bind]. rewrite expect_literal.
  cbn [mbind option_bind]. rewrite digits_pad2 by lia.
  cbn [mbind option_bind]. rewrite expect_literal.
  cbn [mbind option_bind]. rewrite digits_pad2 by lia.
  cbn [mbind option_bind]. rewrite expect_literal.
  cbn [mbind option_bind]. rewrite digits_pad2 by lia.
  cbn [mbind option_bind]. rewrite expect_literal.
  cbn [mbind option_bind]. rewrite digits_pad2 by lia.
  cbn [mbind option_bind]. rewrite expect_literal.
  cbn [mbind option_bind]. rewrite digits_pad2 by lia.
  cbn [mbind option_bind]. rewrite expect_literal.
  cbn [mbind option_bind]. rewrite digits_pad3 by lia.
  cbn [mbind option_bind]. unfold expect. cbn [Ascii.eqb Bool.eqb andb].
  rewrite !Z.mul_0_r, !Z.add_0_l.
  repeat match goal with
         | |- context [?a <=? ?b] => destruct (Z.leb_spec a b); [|lia]
         end.
  cbn [andb orb]. replace (MonthFromTime t + 1 - 1) with (MonthFromTime t) by lia.
  rewrite MakeDay_fields, Htime. cbn [mbind option_bind]. f_equal. apply MakeDate_Day.
Qed.

End RoundTrip.

(** X9: the text that [toISOString] writes of a date reads back, through
    [new Date], as the same instant, for every time value a [Date] can
    hold; so the two dates of a cache entry survive being stored as
    text. *)
Theorem iso_text_round_trip t :
  -8640000000000000 <= t <= 8640000000000000 ->
  ISO8601.parse (ISO8601.isoText t) = Some t.
Proof. intros Ht. by apply parse_isoText, YearFromTime_bound. Qed.

Lemma iso_text_round_trip_witness :
  ISO8601.parse (ISO8601.isoText (civil 1979 4 25 0)) = Some (civil 1979 4 25 0).
Proof. apply (iso_text_round_trip (civil 1979 4 25 0)). vm_compute. split; discriminate. Defined.

(** ** The cache, further *)

Section CacheFurther.

Variable P : Platform.
Variables (el : MovieElement) (link title : string).
Hypothesis el_link : anchor el = Some link.
Hypothesis el_title : imgAlt el = Some title.
Hypothesis title_nonempty : title <> EmptyString.

(** X11: a page on which no release date is found, or whose date text is
    empty or does not parse, costs one request and leaves no mark: nothing
    is logged and nothing is written to the cache.  The failure is not
    remembered, so the next resolution of the element, whenever it comes,
    requests the page again. *)
Theorem undated_page_is_refetched w :
  ~ usable w link ->
  (forall releaseText,
     releaseDateText P (responseBody P link) = Some releaseText ->
     releaseText <> EmptyString -> parseDate P releaseText = None) ->
  finish P (resolveMovie P el) w = (inr None, emit (NetworkRequest link) w) /\
  forall ms, 0 <= ms -> ~ usable (advanceClock ms (emit (NetworkRequest link) w)) link.
Proof.
  intros Hu Hno. split.
  - rewrite finish_resume.
    rewrite (cache_miss P el link title el_link el_title title_nonempty w Hu).
    unfold fetchFresh, mbind, Task_bind. simpl.
    destruct (releaseDateText P (responseBody P link)) as [releaseText|] eqn:Hx; [|done].
    destruct (String.eqb_spec releaseText EmptyString) as [|Hne]; [done|].
    by rewrite (Hno releaseText eq_refl Hne).
  - intros ms Hms (mc & Hs & Hv). apply Hu. exists mc. split; [done|]. simpl in Hv. lia.
Qed.

(** X12: a resolution through the fetch path that runs without another
    resolver in between adds its own entry to the cache document and keeps
    every other entry as it was. *)
Theorem uninterrupted_write_keeps_other_entries w releaseText releaseDate other :
  ~ usable w link ->
  releaseDateText P (responseBody P link) = Some releaseText ->
  releaseText <> EmptyString ->
  parseDate P releaseText = Some releaseDate ->
  other <> link ->
  is_Some (storage (finish P (resolveMovie P el) w).2 ≫= (.!! link)) /\
  storage (finish P (resolveMovie P el) w).2 ≫= (.!! other) = storage w ≫= (.!! other).
Proof.
  intros Hu Hx Hne Hd Ho. rewrite finish_resume.
  rewrite (cache_miss P el link title el_link el_title title_nonempty w Hu).
  unfold fetchFresh, mbind, Task_bind. simpl.
  rewrite Hx, (eqb_empty_false _ Hne), Hd. simpl. split.
  - rewrite lookup_insert_eq. by eexists.
  - rewrite lookup_insert_ne by done. destruct (storage w) as [doc|]; simpl; [done|].
    apply lookup_empty.
Qed.

End CacheFurther.

Lemma undated_page_is_refetched_witness :
  finish Demo.platform (resolveMovie Demo.platform Demo.solaris) (Demo.freshWorld 0)
  = (inr None, emit (NetworkRequest "/film/solaris/") (Demo.freshWorld 0)).
Proof.
  refine (proj1 (undated_page_is_refetched Demo.platform Demo.solaris
                   "/film/solaris/" "Solaris" eq_refl eq_refl _ (Demo.freshWorld 0) _ _)).
  - discriminate.
  - intros (mc & Hs & _). discriminate Hs.
  - intros releaseText Hx _. vm_compute in Hx. injection Hx as <-. reflexivity.
Defined.

Lemma uninterrupted_write_keeps_other_entries_witness :
  let heatEntry :=
    {| Cached.releaseDate := toISOString (civil 1995 11 15 0);
       Cached.lastFetched := civil 2024 11 31 0;
       Cached.nextAnniversary := toISOString (civil 2025 11 15 0) |} in
  let w :=
    {| storage := Some {[ "/film/heat/"%string := heatEntry ]};
       clock := civil 2025 0 1 0; trace := [] |} in
  is_Some (storage (finish Demo.platform (resolveMovie Demo.platform Demo.alien) w).2
             ≫= (.!! "/film/alien/")) /\
  storage (finish Demo.platform (resolveMovie Demo.platform Demo.alien) w).2
    ≫= (.!! "/film/heat/") = Some heatEntry.
Proof.
  intros heatEntry w.
  destruct (uninterrupted_write_keeps_other_entries Demo.platform Demo.alien
              "/film/alien/" "Alien" eq_refl eq_refl ltac:(discriminate) w
              "25 May 1979" (civil 1979 4 25 0) "/film/heat/") as [Hnew Hkept].
  - intros (mc & Hs & _). vm_compute in Hs. discriminate Hs.
  - vm_compute. reflexivity.
  - discriminate.
  - vm_compute. reflexivity.
  - discriminate.
  - split; [exact Hnew|]. rewrite Hkept. vm_compute. reflexivity.
Defined.

(** ** The rate of requests *)

Section RateFacts.

Variable P : Platform.

Lemma requests_app tr1 tr2 : requests (tr1 ++ tr2) = (requests tr1 + requests tr2)%nat.
Proof. unfold requests. by rewrite filter_app, length_app. Qed.

Lemma requests_emit e w :
  requests (trace (emit e w)) = (requests (trace w) + if isRequest e then 1 else 0)%nat.
Proof.
  simpl. rewrite requests_app. f_equal. unfold requests.
  destruct e; reflexivity.
Qed.

Lemma fetchBudget_mono {A} n n' (t : Task A) :
  (n <= n')%nat -> fetchBudget n t -> fetchBudget n' t.
Proof.
  revert n n'. induction t as [a|e|k IH|title k IH|k IH|doc k IH|u k IH|r k IH];
    intros n n' Hn; simpl; try done; try (intros Ht x; by eapply IH); try (by eapply IH).
  intros [Hp Hk]. split; [lia|]. intros x. eapply (IH _ (n - 1)%nat); [lia|done].
Qed.

Lemma runSync_budget {A} n (t : Task A) w :
  fetchBudget n t ->
  fetchBudget n (runSync t w).1 /\
  requests (trace (runSync t w).2) = requests (trace w).
Proof.
  revert w. induction t as [| |k IH|title k IH| | | |]; intros w Ht; try done.
  - simpl. apply IH, Ht.
  - simpl. destruct (IH (emit (ConsoleErrorEv title) w) Ht) as [Hb Hr].
    split; [done|]. rewrite Hr, requests_emit. simpl. lia.
Qed.

Lemma resume_budget {A} n rej (t : Task A) w :
  fetchBudget n t ->
  exists n',
    fetchBudget n' (resume P rej t w).1 /\
    (requests (trace (resume P rej t w).2) + n' <= requests (trace w) + n)%nat.
Proof.
  intros Ht. destruct t as [| | | |k|doc k|u k|r k];
    try (exists n; split;
         [exact (proj1 (runSync_budget n _ w Ht))
         |apply Nat.eq_le_incl; f_equal; exact (proj2 (runSync_budget n _ w Ht))]);
    simpl in *.
  - exists n. destruct (runSync_budget n (k (if rej then inl StorageError else inr (storage w))) w)
      as [Hb Hr]; [apply Ht|]. split; [done|lia].
  - exists n. destruct rej.
    + destruct (runSync_budget n (k (inl StorageError)) w) as [Hb Hr]; [apply Ht|].
      split; [done|lia].
    + destruct (runSync_budget n (k (inr ())) (store doc w)) as [Hb Hr]; [apply Ht|].
      split; [done|]. rewrite Hr. simpl. lia.
  - destruct Ht as [Hp Hk]. exists (n - 1)%nat.
    destruct (runSync_budget (n - 1)
                (k (if rej then inl NetworkError else inr {| body := responseBody P u |}))
                (emit (NetworkRequest u) w)) as [Hb Hr]; [apply Hk|].
    split; [done|]. rewrite Hr, requests_emit. simpl. lia.
  - exists n. destruct (runSync_budget n (k (if rej then inl BodyError else inr (body r))) w)
      as [Hb Hr]; [apply Ht|]. split; [done|lia].
Qed.

Lemma finish_budget {A} n (t : Task A) w :
  fetchBudget n t ->
  (requests (trace (finish P t w).2) <= requests (trace w) + n)%nat.
Proof.
  revert n w. induction t as [a|e|k IH|title k IH|k IH|doc k IH|u k IH|r k IH];
    intros n w Ht; simpl in *; try lia; try (by apply IH).
  - etransitivity; [apply (IH n), Ht|]. rewrite requests_emit. simpl. lia.
  - etransitivity; [apply (IH _ n), Ht|]. simpl. lia.
  - destruct Ht as [Hp Hk]. etransitivity; [apply (IH _ (n - 1)%nat), Hk|].
    rewrite requests_emit. simpl. lia.
Qed.

Lemma fetchFresh_budget title link : fetchBudget 1 (fetchFresh P title link).
Proof.
  unfold fetchFresh, mbind, Task_bind, fetch, text, storageLocalGet, storageLocalSet,
    dateNow. simpl. split; [lia|].
  intros [e|response]; simpl; [done|]. intros [e|html]; simpl; [done|].
  destruct (releaseDateText P html) as [releaseText|]; [|done].
  destruct (String.eqb releaseText EmptyString); [done|].
  destruct (parseDate P releaseText) as [releaseDate|]; [|done].
  simpl. intros today [e|existing]; simpl; [done|]. intros now [e|[]]; done.
Qed.

Lemma tryCatch_budget {A} n (body : Task A) handler :
  fetchBudget n body -> (forall e, fetchBudget 0 (handler e)) ->
  fetchBudget n (tryCatch body handler).
Proof.
  intros Hb Hh. revert n Hb.
  induction body as [a|e|k IH|title k IH|k IH|doc k IH|u k IH|r k IH]; intros n Hb;
    simpl in *; try done; try (intros x; apply IH, Hb); try (by apply IH).
  - eapply fetchBudget_mono; [|apply Hh]. lia.
  - destruct Hb as [Hp Hk]. split; [done|]. intros x. apply IH, Hk.
Qed.

Lemma resolveMovie_budget el : fetchBudget 1 (resolveMovie P el).
Proof.
  unfold resolveMovie.
  destruct (anchor el) as [link|]; [|done]. destruct (imgAlt el) as [title|]; [|done].
  destruct (String.eqb title EmptyString); [done|].
  apply tryCatch_budget; [|done].
  unfold mbind, Task_bind, storageLocalGet, dateNow. simpl.
  intros [e|cachedData]; simpl; [done|].
  destruct (option_bind _ _ _ _) as [movieCache|]; [|apply fetchFresh_budget].
  simpl. intros now. destruct (_ <? _); [done|apply fetchFresh_budget].
Qed.

Lemma startAll_budget {A} ns (tasks : list (Task A)) w :
  Forall2 fetchBudget ns tasks ->
  Forall2 fetchBudget ns (startAll tasks w).1 /\
  requests (trace (startAll tasks w).2) = requests (trace w).
Proof.
  intros Hf. revert w. induction Hf as [|n t ns tasks Hn Hf IH]; intros w; simpl; [done|].
  destruct (runSync_budget n t w Hn) as [Hb Hr]. destruct (runSync t w) as [t' w1].
  destruct (IH w1) as [Hbs Hrs]. destruct (startAll tasks w1) as [tasks' w2].
  simpl in *. split; [by constructor|lia].
Qed.

Lemma sum_list_insert ns i n n' :
  ns !! i = Some n -> (sum_list (<[i := n']> ns) + n = sum_list ns + n')%nat.
Proof.
  revert i. induction ns as [|m ns IH]; intros [|i] Hi; simpl in *; try done.
  - injection Hi as ->. lia.
  - specialize (IH i Hi). lia.
Qed.

Lemma eventLoop_budget {A} ns sched (tasks : list (Task A)) w :
  Forall2 fetchBudget ns tasks ->
  exists ns',
    Forall2 fetchBudget ns' (eventLoop P sched tasks w).1 /\
    (requests (trace (eventLoop P sched tasks w).2) + sum_list ns'
     <= requests (trace w) + sum_list ns)%nat.
Proof.
  revert ns tasks w. induction sched as [|c sched IH]; intros ns tasks w Hf; simpl.
  - exists ns. split; [done|lia].
  - destruct (tasks !! who c) as [t|] eqn:Ht.
    + destruct (Forall2_lookup_r _ _ _ _ _ Hf Ht) as (n & Hn & Hnt).
      destruct (resume_budget n (rejected c) t (advanceClock (Z.of_N (elapsed c)) w) Hnt)
        as (n' & Hb & Hr).
      destruct (resume P (rejected c) t _) as [t' w1]. simpl in *.
      destruct (IH (<[who c := n']> ns) (<[who c := t']> tasks) w1) as (ns' & Hbs & Hrs).
      { by apply Forall2_insert. }
      exists ns'. split; [done|].
      pose proof (sum_list_insert ns (who c) n n' Hn). lia.
    + destruct (IH ns tasks (advanceClock (Z.of_N (elapsed c)) w) Hf) as (ns' & Hbs & Hrs).
      exists ns'. split; [done|]. simpl in Hrs. lia.
Qed.

Lemma finishAll_budget {A} ns (tasks : list (Task A)) w :
  Forall2 fetchBudget ns tasks ->
  (requests (trace (finishAll P tasks w).2) <= requests (trace w) + sum_list ns)%nat.
Proof.
  intros Hf. revert w. induction Hf as [|n t ns tasks Hn Hf IH]; intros w; simpl; [lia|].
  pose proof (finish_budget n t w Hn) as Hr. destruct (finish P t w) as [r w1].
  specialize (IH w1). destruct (finishAll P tasks w1) as [rs w2]. simpl in *. lia.
Qed.

Lemma promiseAll_budget {A} ns sched (tasks : list (Task A)) w :
  Forall2 fetchBudget ns tasks ->
  (requests (trace (promiseAll P sched tasks w).2) <= requests (trace w) + sum_list ns)%nat.
Proof.
  intros Hf. unfold promiseAll.
  destruct (startAll_budget ns tasks w Hf) as [H1 R1].
  destruct (startAll tasks w) as [started w1]. simpl in *.
  destruct (eventLoop_budget ns sched started w1 H1) as (ns' & H2 & R2).
  destruct (eventLoop P sched started w1) as [suspended w2]. simpl in *.
  pose proof (finishAll_budget ns' suspended w2 H2) as R3.
  destruct (finishAll P suspended w2) as [rs w3]. simpl in *. lia.
Qed.

Lemma batch_budget (batch : list MovieElement) :
  Forall2 fetchBudget (replicate (length batch) 1%nat) (resolveMovie P <$> batch).
Proof.
  induction batch as [|el batch IH]; simpl; constructor; [apply resolveMovie_budget|done].
Qed.

Lemma sum_list_replicate n : sum_list (replicate n 1%nat) = n.
Proof. induction n as [|n IH]; simpl; [done|]. by rewrite IH. Qed.

End RateFacts.

Section RateLoop.

Variable P : Platform.
Variables (batchSize : nat) (delay : Z).
Variable movieArray : list MovieElement.
Variable totalMovies : nat.
Hypothesis batchSize_pos : (0 < batchSize)%nat.

Lemma requests_cons e tr :
  requests (e :: tr) = ((if isRequest e then 1 else 0) + requests tr)%nat.
Proof. change (e :: tr) with ([e] ++ tr). rewrite requests_app. by destruct e. Qed.

(** The events of a batch hold no pause, so they draw on one allowance. *)
Lemma withinRate_batch batch trb rest allowance :
  Forall (batchEvent batch) trb ->
  (requests trb <= allowance)%nat ->
  withinRate batchSize (allowance - requests trb) rest ->
  withinRate batchSize allowance (trb ++ rest).
Proof.
  intros Hev. revert allowance. induction Hev as [|e trb He Hev IH]; intros allowance Hle Hr.
  - simpl in *. by rewrite Nat.sub_0_r in Hr.
  - rewrite requests_cons in Hle, Hr.
    apply Exists_exists in He as (el & _ & He).
    destruct e as [u|t| |]; simpl in *; try done.
    + split; [lia|]. apply IH; [lia|]. by replace (allowance - 1 - requests trb)%nat
        with (allowance - S (requests trb))%nat by lia.
    + by apply IH.
Qed.

Lemma unflagged_tasks (batch : list MovieElement) :
  Forall2 (taskInv P) (unflagged batch) (resolveMovie P <$> batch).
Proof.
  rewrite <- (unflagged_fst batch) at 2. apply batch_tasks.
  eapply Forall_impl; [apply unflagged_false|]. simpl. congruence.
Qed.

Lemma batchLoop_rate fuel : forall i scheds processed movies history w,
  (length movieArray - i < fuel)%nat ->
  exists run tr w',
    batchLoop P batchSize delay movieArray totalMovies fuel i scheds
              processed movies history w = (Done run, w') /\
    trace w' = trace w ++ tr /\
    withinRate batchSize batchSize tr /\
    (requests tr <= length movieArray - i)%nat /\
    (length movieArray <= i -> tr = [])%nat.
Proof.
  induction fuel as [|fuel IH]; intros i scheds processed movies history w Hfuel; [lia|].
  simpl. destruct (Nat.ltb_spec i (length movieArray)) as [Hi|Hi].
  2:{ eexists _, [], w. rewrite app_nil_r.
      split; [reflexivity|]. split; [done|]. split; [done|]. split; [unfold requests; simpl; lia|done]. }
  set (batch := JSArray.slice movieArray i (i + batchSize)).
  assert (length batch <= batchSize /\ length batch <= length movieArray - i)%nat as [Hb1 Hb2].
  { unfold batch, JSArray.slice. rewrite length_take, length_drop. lia. }
  pose proof (promiseAll_budget P (replicate (length batch) 1%nat) (hd [] scheds)
                (resolveMovie P <$> batch) w (batch_budget P batch)) as Hreq.
  rewrite sum_list_replicate in Hreq.
  destruct (promiseAll_inv P (unflagged batch) (hd [] scheds)
              (resolveMovie P <$> batch) w)
    as (results & w1 & E & _ & (trb & Etr & Hev)).
  { intros c x _ Hx Hf. pose proof (unflagged_false batch) as Hu.
    rewrite Forall_lookup in Hu. specialize (Hu _ _ Hx). simpl in Hu. congruence. }
  { apply unflagged_tasks. }
  rewrite unflagged_fst in Hev. rewrite E in Hreq |- *. simpl in Hreq.
  rewrite Etr, requests_app in Hreq.
  set (w2 := if (i + batchSize <? length movieArray)%nat then _ else _).
  destruct (IH (i + batchSize)%nat (tl scheds) (processed + length batch)%nat
              (movies ++ omap id results) (history ++ results) w2)
    as (run & tr & w' & -> & Et & Hrate & Hn & Hlast); [lia|].
  destruct (Nat.ltb_spec (i + batchSize) (length movieArray)) as [Hm|Hm].
  - exists run, (trb ++ Progress (processed + length batch) totalMovies
                    :: Sleep delay :: tr), w'.
    split; [done|]. split.
    { rewrite Et. unfold w2. simpl. rewrite Etr, <- !app_assoc. done. }
    split; [apply (withinRate_batch batch); [done|lia|done]|].
    split; [|lia]. rewrite requests_app, !requests_cons. simpl. lia.
  - rewrite (Hlast Hm) in *.
    exists run, (trb ++ [Progress (processed + length batch) totalMovies]), w'.
    split; [done|]. split.
    { rewrite Et. unfold w2. simpl. rewrite Etr, <- !app_assoc. done. }
    split; [apply (withinRate_batch batch); [done|lia|done]|].
    split; [|lia]. rewrite requests_app, !requests_cons. simpl. lia.
Qed.

End RateLoop.

(** X13: the requests of a run come in bursts of at most [batchSize]: read
    with an allowance of [batchSize] requests that only a pause renews, the
    trace of the run never exceeds its allowance, whatever the order in
    which the environment settles the operations and whichever of them it
    rejects; and the run makes at most one request for each element. *)
Theorem requests_come_in_bursts P batchSize delay scheds movieElements w :
  (0 < batchSize)%nat ->
  exists run tr w',
    resolveAll P batchSize delay scheds movieElements w = (Done run, w') /\
    trace w' = trace w ++ tr /\
    withinRate batchSize batchSize tr /\
    (requests tr <= length movieElements)%nat.
Proof.
  intros HB. unfold resolveAll.
  destruct (batchLoop_rate P batchSize delay movieElements (length movieElements) HB
              (S (length movieElements)) 0%nat scheds 0%nat [] [] w)
    as (run & tr & w' & -> & Et & Hrate & Hn & _); [lia|].
  eexists _, tr, w'. repeat split; [done|done|lia].
Qed.

Lemma requests_come_in_bursts_witness :
  exists run tr w',
    resolveAll Demo.platform 2 1000 [Demo.racing]
               [Demo.alien; Demo.heat; Demo.brazil] (Demo.freshWorld 0)
    = (Done run, w') /\
    trace w' = trace (Demo.freshWorld 0) ++ tr /\
    withinRate 2 2 tr /\
    (requests tr <= 3)%nat.
Proof.
  apply (requests_come_in_bursts Demo.platform 2 1000 [Demo.racing]
           [Demo.alien; Demo.heat; Demo.brazil] (Demo.freshWorld 0)).
  lia.
Defined.

(** ** Debouncing *)

Section DebounceFacts.

Import Debounce.

Context {A S : Type}.
Variable func : A -> S -> S.
Variable wait : N.

Implicit Types (mid : list (Trigger A)) (s : Debounced A S).

Lemma reactAll_app mid1 mid2 s :
  reactAll func wait (mid1 ++ mid2) s = reactAll func wait mid2 (reactAll func wait mid1 s).
Proof. apply foldl_app. Qed.

Lemma waited_app mid1 mid2 : waited (mid1 ++ mid2) = waited mid1 + waited mid2.
Proof.
  induction mid1 as [|i mid1 IH]; simpl; [done|]. destruct i; rewrite ?IH; lia.
Qed.

Lemma waited_nonneg mid : 0 <= waited mid.
Proof. induction mid as [|i mid IH]; simpl; [done|]. destruct i; lia. Qed.

(** With no timer pending and no call, nothing happens. *)
Lemma reactAll_idle mid c p :
  forallb (fun i => negb (isCall i)) mid = true ->
  reactAll func wait mid {| clock := c; timeout := None; program := p |}
  = {| clock := c + waited mid; timeout := None; program := p |}.
Proof.
  unfold reactAll. revert c. induction mid as [|i mid IH]; intros c Hm; simpl in *.
  - f_equal. lia.
  - apply andb_true_iff in Hm as [Hi Hm]. destruct i; simpl in *; [done| |].
    + rewrite IH by done. f_equal. lia.
    + by rewrite IH.
Qed.

(** With a timer pending and no call, the function has run once, with the
    arguments of the timer, or not yet; and not before the timer is due. *)
Lemma reactAll_pending mid c due args p :
  forallb (fun i => negb (isCall i)) mid = true ->
  let r := reactAll func wait mid {| clock := c; timeout := Some (due, args); program := p |} in
  clock r = c + waited mid /\
  ((timeout r = Some (due, args) /\ program r = p) \/
   (timeout r = None /\ program r = func args p /\ due <= clock r)).
Proof.
  unfold reactAll. revert c. induction mid as [|i mid IH]; intros c Hm; simpl in *.
  - split; [lia|]. by left.
  - apply andb_true_iff in Hm as [Hi Hm]. destruct i; simpl in *; [done| |].
    + destruct (IH (c + Z.of_N ms) Hm) as [Hc Hr]. split; [lia|done].
    + destruct (Z.leb_spec due c) as [Hd|Hd].
      * pose proof (reactAll_idle mid c (func args p) Hm) as Hi'. unfold reactAll in Hi'.
        rewrite Hi'. simpl. split; [done|]. right. pose proof (waited_nonneg mid).
        split; [done|]. split; [done|lia].
      * apply IH, Hm.
Qed.

End DebounceFacts.

(** X14: a debounced function runs [func] only after [wait] milliseconds
    without a call, and then once, with the arguments of the last call.
    After a call and any turns of the timers with less than [wait] of
    waiting, [func] has not run and the timer set before the call, if any,
    is gone; after a turn of the timers that comes [wait] or more after
    the call, [func] has run exactly once, on the arguments of that call,
    and no timer is left. *)
Theorem debounce_waits_for_quiet {A S : Type} (func : A -> S -> S) (wait : N)
    (args : A) (mid : list (Debounce.Trigger A)) (s : Debounce.Debounced A S) :
  forallb (fun i => negb (Debounce.isCall i)) mid = true ->
  let r := Debounce.reactAll func wait (Debounce.Call args :: mid) s in
  (Debounce.waited mid < Z.of_N wait ->
   Debounce.program r = Debounce.program s /\
   Debounce.timeout r = Some (Debounce.clock s + Z.of_N wait, args)) /\
  (forall mid1 mid2,
     mid = mid1 ++ Debounce.Timers :: mid2 ->
     Z.of_N wait <= Debounce.waited mid1 ->
     Debounce.program r = func args (Debounce.program s) /\
     Debounce.timeout r = None).
Proof.
  intros Hm r. split.
  - intros Hw.
    destruct (reactAll_pending func wait mid (Debounce.clock s)
                (Debounce.clock s + Z.of_N wait) args (Debounce.program s) Hm)
      as [Hc [[Ht Hp]|(_ & _ & Hd)]]; [done|].
    exfalso. unfold Debounce.reactAll in *. simpl in *. lia.
  - intros mid1 mid2 -> Hw. rewrite forallb_app in Hm.
    apply andb_true_iff in Hm as [Hm1 Hm2]. simpl in Hm2.
    unfold r. change (Debounce.Call args :: mid1 ++ Debounce.Timers :: mid2)
      with ([Debounce.Call args] ++ mid1 ++ [Debounce.Timers] ++ mid2).
    rewrite !reactAll_app.
    destruct (reactAll_pending func wait mid1 (Debounce.clock s)
                (Debounce.clock s + Z.of_N wait) args (Debounce.program s) Hm1)
      as [Hc Hr].
    change (Debounce.reactAll func wait [Debounce.Call args] s)
      with {| Debounce.clock := Debounce.clock s;
              Debounce.timeout := Some (Debounce.clock s + Z.of_N wait, args);
              Debounce.program := Debounce.program s |}.
    destruct (Debounce.reactAll func wait mid1 _) as [c1 t1 p1]. simpl in *.
    pose proof (reactAll_idle func wait mid2 c1 (func args (Debounce.program s)) Hm2) as Hi.
    unfold Debounce.reactAll in *.
    destruct Hr as [[-> ->]|(-> & -> & Hd)]; simpl.
    + destruct (Z.leb_spec (Debounce.clock s + Z.of_N wait) c1); [|lia].
      by rewrite Hi.
    + by rewrite Hi.
Qed.

Lemma debounce_waits_for_quiet_witness :
  Debounce.program
    (Debounce.reactAll (fun (n : nat) (total : nat) => (total + n)%nat) 500
       [Debounce.Call 1%nat; Debounce.Wait 100; Debounce.Timers]
       {| Debounce.clock := 0; Debounce.timeout := Some (7, 5%nat);
          Debounce.program := 0%nat |})
  = 0%nat.
Proof.
  refine (proj1 (proj1 (debounce_waits_for_quiet
                          (fun (n : nat) (total : nat) => (total + n)%nat) 500 1%nat
                          [Debounce.Wait 100; Debounce.Timers]
                          {| Debounce.clock := 0; Debounce.timeout := Some (7, 5%nat);
                             Debounce.program := 0%nat |} eq_refl) _)).
  reflexivity.
Defined.

(** X15: calls that follow one another by less than [wait] milliseconds
    never let [func] run, however many they are and whatever turns the
    timers get in between. *)
Theorem debounce_burst_runs_nothing {A S : Type} (func : A -> S -> S) (wait : N)
    (calls : list (A * list (Debounce.Trigger A))) (s : Debounce.Debounced A S) :
  Forall (fun call =>
            forallb (fun i => negb (Debounce.isCall i)) call.2 = true /\
            Debounce.waited call.2 < Z.of_N wait) calls ->
  Debounce.program
    (Debounce.reactAll func wait
       (concat ((fun call => Debounce.Call call.1 :: call.2) <$> calls)) s)
  = Debounce.program s.
Proof.
  intros Hc. revert s. induction Hc as [|[args mid] calls [Hm Hw] _ IH]; intros s; [done|].
  rewrite fmap_cons. cbn [concat fst snd] in *.
  change (Debounce.Call args :: mid) with ([Debounce.Call args] ++ mid).
  rewrite !reactAll_app, IH.
  destruct (reactAll_pending func wait mid (Debounce.clock s)
              (Debounce.clock s + Z.of_N wait) args (Debounce.program s) Hm)
    as [Hclk [[_ Hp]|(_ & _ & Hd)]]; [done|].
  exfalso. unfold Debounce.reactAll in *. simpl in *. lia.
Qed.

Lemma debounce_burst_runs_nothing_witness :
  Debounce.program
    (Debounce.reactAll (fun (n : nat) (total : nat) => (total + n)%nat) 500
       [Debounce.Call 1%nat; Debounce.Wait 499; Debounce.Timers;
        Debounce.Call 2%nat; Debounce.Wait 300; Debounce.Timers]
       {| Debounce.clock := 0; Debounce.timeout := None; Debounce.program := 0%nat |})
  = 0%nat.
Proof.
  apply (debounce_burst_runs_nothing
           (fun (n : nat) (total : nat) => (total + n)%nat) 500
           [(1%nat, [Debounce.Wait 499; Debounce.Timers]);
            (2%nat, [Debounce.Wait 300; Debounce.Timers])]).
  repeat constructor.
Defined.

(** ** The script on a page *)

Section ContentFacts.

Import Content.

Variable P : Platform.

Lemma tryInit_inv attempts s : bounded s -> bounded (tryInit P attempts s).
Proof.
  intros Hs. pose proof Hs as [He Ht]. unfold tryInit.
  destruct (filmHeader (page s)); simpl.
  - destruct (anniversaryElements s) eqn:Hel; [|done].
    destruct (releaseDateElement (page s)) as [releaseText|]; [|done].
    destruct (ratingsSection (page s)) as [hasParent|]; [|done].
    destruct (String.eqb releaseText EmptyString); [done|].
    destruct (parseDate P releaseText); [|done].
    split; simpl; [by destruct hasParent; simpl; lia|done].
  - destruct (Nat.ltb_spec (S attempts) maxAttempts); [|done].
    split; simpl; [done|]. apply Forall_app. split; [done|].
    constructor; [simpl; lia|constructor].
Qed.

Lemma init_inv s : bounded s -> bounded (init P s).
Proof.
  intros Hs. unfold init. destruct (isInitialized s); [done|].
  destruct (listPath (page s)); [|by apply tryInit_inv].
  unfold initListPage. by destruct (listHeader (page s)).
Qed.

Lemma step_inv s i : bounded s -> bounded (step P s i).
Proof.
  intros Hs. pose proof Hs as [He Ht].
  destruct i as [| |relevant page' kept keptButtons|ms| |k]; simpl.
  - by apply init_inv.
  - done.
  - assert (bounded {| isInitialized := isInitialized s; timeout := timeout s;
                   retryTimers := retryTimers s; page := page';
                   anniversaryElements := take kept (anniversaryElements s);
                   buttons := Nat.min keptButtons (buttons s); clock := clock s |}) as Hs'.
    { split; simpl; [rewrite length_take; lia|done]. }
    by destruct relevant.
  - done.
  - unfold Debounce.later. destruct (timeout s) as [[due []]|]; [|done].
    destruct (due <=? clock s); [|done]. unfold reset.
    destruct (anniversaryElements s) eqn:Hel; [|done].
    assert (bounded (init P (withInitialized false s))) as [He' Ht'] by by apply init_inv.
    by split.
  - destruct (retryTimers s !! k) as [[due attempts]|]; [|done].
    destruct (due <=? clock s); [|done]. apply tryInit_inv.
    split; simpl; [done|]. by apply Forall_delete.
Qed.

Lemma run_inv inputs s : bounded s -> bounded (run P inputs s).
Proof.
  unfold run. revert s. induction inputs as [|i inputs IH]; intros s Hs; [done|].
  simpl. by apply IH, step_inv.
Qed.

Lemma content_run_app inputs1 inputs2 s :
  run P (inputs1 ++ inputs2) s = run P inputs2 (run P inputs1 s).
Proof. apply foldl_app. Qed.

End ContentFacts.

(** X16: whatever happens to the script after it is loaded, in whatever
    order (mounting, changes of the document, turns of the timers), the
    document never holds two elements of class [next-anniversary], and no
    call of [init] looks for the film header more than twenty times. *)
Theorem never_two_anniversary_elements P page now inputs :
  let s := Content.run P inputs (Content.loaded page now) in
  (length (Content.anniversaryElements s) <= 1)%nat /\
  Forall (fun timer => (1 <= timer.2 < 20)%nat) (Content.retryTimers s).
Proof. apply (run_inv P inputs (Content.loaded page now)). split; simpl; [lia|done]. Qed.

Ltac fields := repeat first [done | lia | progress f_equal].

Section ContentScenarios.

Import Content.

Variable P : Platform.

Lemma retryRound_step s k :
  filmHeader (page s) = false ->
  retryTimers s = [(clock s + 1000, S k)] ->
  run P retryRound s
  = withClock (clock s + 1000)
      (withRetryTimers (if (S (S k) <? maxAttempts)%nat
                        then [(clock s + 1000 + 1000, S (S k))] else []) s).
Proof.
  intros Hh Ht. unfold run, retryRound. simpl. rewrite Ht. simpl.
  destruct (Z.leb_spec (clock s + 1000) (clock s + 1000)); [|lia].
  unfold tryInit. simpl. rewrite Hh. simpl.
  by destruct (S (S k) <? maxAttempts)%nat.
Qed.

Lemma retryRounds s k :
  isInitialized s = false -> listPath (page s) = false ->
  filmHeader (page s) = false -> retryTimers s = [] ->
  (k < 19)%nat ->
  run P (concat (replicate k retryRound)) (step P s Mount)
  = withClock (clock s + 1000 * Z.of_nat k)
      (withRetryTimers [(clock s + 1000 * Z.of_nat (S k), S k)] s).
Proof.
  intros Hi Hl Hh Ht. induction k as [|k IH]; intros Hk.
  - simpl. unfold run. simpl. unfold init, tryInit. rewrite Hi, Hl, Hh, Ht. simpl.
    destruct s; simpl in *. unfold withClock, withRetryTimers. simpl. fields.
  - rewrite replicate_S_end, concat_app, content_run_app, IH by lia.
    change (concat [retryRound]) with retryRound.
    rewrite (retryRound_step _ k); simpl; [|done|fields].
    destruct (Nat.ltb_spec (S (S k)) maxAttempts) as [|Hge]; [|unfold maxAttempts in Hge; lia].
    unfold withClock, withRetryTimers. simpl. fields.
Qed.

End ContentScenarios.

(** X17: on a film page whose header never appears, [init] looks for it
    twenty times, a second apart: after each of the first eighteen retries
    one timer of [tryInit] is pending, and with the nineteenth retry the
    script gives up, leaving everything but the clock as it was: no timer,
    no element, [isInitialized] still false. *)
Theorem tryInit_gives_up P s :
  Content.isInitialized s = false ->
  Content.listPath (Content.page s) = false ->
  Content.filmHeader (Content.page s) = false ->
  Content.retryTimers s = [] ->
  (forall k, (k < 19)%nat ->
     Content.retryTimers
       (Content.run P (concat (replicate k Content.retryRound))
                    (Content.step P s Content.Mount))
     = [(Content.clock s + 1000 * Z.of_nat (S k), S k)]) /\
  Content.run P (concat (replicate 19 Content.retryRound))
              (Content.step P s Content.Mount)
  = Content.withClock (Content.clock s + 19000) s.
Proof.
  intros Hi Hl Hh Ht. split.
  - intros k Hk. by rewrite retryRounds.
  - rewrite replicate_S_end, concat_app, content_run_app, retryRounds by (done || lia).
    change (concat [Content.retryRound]) with Content.retryRound.
    rewrite (retryRound_step _ _ 18); simpl; [|done|fields].
    destruct s; simpl in *. subst. unfold Content.withClock. simpl. fields.
Qed.

Lemma tryInit_gives_up_witness :
  Content.run Demo.platform (concat (replicate 19 Content.retryRound))
    (Content.step Demo.platform
       (Content.loaded {| Content.listPath := false; Content.filmHeader := false;
                          Content.releaseDateElement := Some "25 May 1979"%string;
                          Content.ratingsSection := Some true;
                          Content.listHeader := false |} 0)
       Content.Mount)
  = Content.withClock (0 + 19000)
      (Content.loaded {| Content.listPath := false; Content.filmHeader := false;
                         Content.releaseDateElement := Some "25 May 1979"%string;
                         Content.ratingsSection := Some true;
                         Content.listHeader := false |} 0).
Proof.
  apply (tryInit_gives_up Demo.platform
           (Content.loaded {| Content.listPath := false; Content.filmHeader := false;
                              Content.releaseDateElement := Some "25 May 1979"%string;
                              Content.ratingsSection := Some true;
                              Content.listHeader := false |} 0));
    reflexivity.
Defined.

(** X18: on a list page with a list header, every reset adds a button to
    the header, whether or not [isInitialized] was set: after a relevant
    change of the document and 500 ms or more of quiet there is one button
    more, and the page is again as it was, so that the next reset adds
    another. *)
Theorem reset_adds_a_button P s ms :
  Content.listPath (Content.page s) = true ->
  Content.listHeader (Content.page s) = true ->
  Content.anniversaryElements s = [] ->
  (500 <= ms)%N ->
  let s' := Content.run P (Content.resetRound s ms) s in
  Content.buttons s' = S (Content.buttons s) /\
  Content.isInitialized s' = true /\
  Content.page s' = Content.page s /\
  Content.anniversaryElements s' = [].
Proof.
  intros Hl Hh He Hms. unfold Content.run, Content.resetRound. simpl.
  rewrite He. simpl.
  destruct (Z.leb_spec (Content.clock s + 500) (Content.clock s + Z.of_N ms)); [|lia].
  unfold Content.reset. simpl. unfold Content.init. simpl. rewrite Hl.
  unfold Content.initListPage. simpl. rewrite Hh. simpl.
  rewrite Nat.min_id. done.
Qed.

Lemma reset_adds_a_button_witness :
  Content.buttons
    (Content.run Demo.platform
       (Content.resetRound
          (Content.step Demo.platform
             (Content.loaded {| Content.listPath := true; Content.filmHeader := false;
                                Content.releaseDateElement := None;
                                Content.ratingsSection := None;
                                Content.listHeader := true |} 0) Content.Mount) 500)
       (Content.step Demo.platform
          (Content.loaded {| Content.listPath := true; Content.filmHeader := false;
                             Content.releaseDateElement := None;
                             Content.ratingsSection := None;
                             Content.listHeader := true |} 0) Content.Mount))
  = 2%nat.
Proof.
  refine (proj1 (reset_adds_a_button Demo.platform
                   (Content.step Demo.platform
                      (Content.loaded {| Content.listPath := true;
                                         Content.filmHeader := false;
                                         Content.releaseDateElement := None;
                                         Content.ratingsSection := None;
                                         Content.listHeader := true |} 0) Content.Mount)
                   500 eq_refl eq_refl eq_refl _)).
  discriminate.
Defined.

(** X19: on a film page that has its header, a release date that parses
    and a ratings section, a reset puts the element back once the page has
    removed it: after a relevant change and 500 ms or more of quiet the
    document holds one element, which shows the next anniversary and the
    next milestone as the calculators give them at the time of the reset,
    with the count of years and its suffix. *)
Theorem reset_restores_element P s ms releaseText releaseDate :
  Content.listPath (Content.page s) = false ->
  Content.filmHeader (Content.page s) = true ->
  Content.releaseDateElement (Content.page s) = Some releaseText ->
  releaseText <> EmptyString ->
  parseDate P releaseText = Some releaseDate ->
  Content.ratingsSection (Content.page s) = Some true ->
  Content.anniversaryElements s = [] ->
  (500 <= ms)%N ->
  let s' := Content.run P (Content.resetRound s ms) s in
  let now := Content.clock s + Z.of_N ms in
  let next := calculateNextAnniversary (LocalTZA P) now releaseDate in
  Content.anniversaryElements s'
  = [ {| Content.count := yearsSinceRelease (LocalTZA P) next releaseDate;
         Content.suffix :=
           getOrdinalSuffix (yearsSinceRelease (LocalTZA P) next releaseDate);
         Content.anniversary := next;
         Content.milestone :=
           calculateNextMilestoneAnniversary (LocalTZA P) now releaseDate |} ] /\
  Content.isInitialized s' = true.
Proof.
  intros Hl Hh Hx Hne Hd Hr He Hms. unfold Content.run, Content.resetRound. simpl.
  rewrite He. simpl.
  destruct (Z.leb_spec (Content.clock s + 500) (Content.clock s + Z.of_N ms)); [|lia].
  unfold Content.reset. simpl. unfold Content.init. simpl. rewrite Hl.
  unfold Content.tryInit. simpl. rewrite Hh, Hx, Hr, (eqb_empty_false _ Hne), Hd. simpl.
  done.
Qed.

Lemma reset_restores_element_witness :
  Content.isInitialized
    (Content.run Demo.platform
       (Content.resetRound
          (Content.loaded {| Content.listPath := false; Content.filmHeader := true;
                             Content.releaseDateElement := Some "25 May 1979"%string;
                             Content.ratingsSection := Some true;
                             Content.listHeader := false |} 0) 500)
       (Content.loaded {| Content.listPath := false; Content.filmHeader := true;
                          Content.releaseDateElement := Some "25 May 1979"%string;
                          Content.ratingsSection := Some true;
                          Content.listHeader := false |} 0))
  = true.
Proof.
  refine (proj2 (reset_restores_element Demo.platform
                   (Content.loaded {| Content.listPath := false;
                                      Content.filmHeader := true;
                                      Content.releaseDateElement := Some "25 May 1979"%string;
                                      Content.ratingsSection := Some true;
                                      Content.listHeader := false |} 0)
                   500 "25 May 1979" (civil 1979 4 25 0)
                   eq_refl eq_refl eq_refl _ eq_refl eq_refl eq_refl _));
    discriminate.
Defined.
